(** * markitdown_utility: a shallow embedding of the document pipeline

    The program reads a list of input references (files or URLs), extracts
    their text, joins the texts into one corpus, sends the corpus (whole or
    chunk by chunk) to a completion backend and adds_only P the answer.

    Everything outside the program (the file system, the parsing libraries,
    the text splitter of LangChain, the completion backend) is a field of
    the record [World]; the program itself is written in a small monad that
    records what the process does (lines printed, completion requests,
    files written) and how it ends.  A run starts at [main]: the check of
    the API key at import time has passed.  The content of an answer of
    the backend is a text or [None], and so are the chunk results and the
    final result. *)

From Stdlib Require Import String Ascii List Bool Arith ZArith Lia DecimalString.
Import ListNotations.
Open Scope list_scope.
Open Scope string_scope.

(** ** Python strings *)

Module Py.

(** ["\n"] *)
Definition nl : string := String "010"%char EmptyString.

(** [s * n] *)
Fixpoint repeat_str (s : string) (n : nat) : string :=
  match n with
  | O => ""
  | S k => s ++ repeat_str s k
  end.

(** [sep.join(l)] *)
Definition join (sep : string) (l : list string) : string :=
  String.concat sep l.

(** [str(n)] for a length *)
Definition str_of_nat (n : nat) : string :=
  NilZero.string_of_uint (Nat.to_uint n).

(** truth value of a string: only [""] is false *)
Definition truthy (s : string) : bool := negb (s =? "").

(** truth value of [str or None] *)
Definition truthy_opt (o : option string) : bool :=
  match o with
  | Some s => truthy s
  | None => false
  end.

(** [str(v)] for a value that is a text or [None], as [print] shows it *)
Definition str_of_value (v : option string) : string :=
  match v with
  | Some s => s
  | None => "None"
  end.

(** [s.startswith(p)] *)
Definition startswith (s p : string) : bool := String.prefix p s.

(** [c.lower()] on one character; only the letters A..Z change.  No
    character outside A..Z lowers to one of the letters of the extensions
    the router compares with. *)
Definition lower_char (c : ascii) : ascii :=
  let n := nat_of_ascii c in
  if ((65 <=? n)%nat && (n <=? 90)%nat)%bool then ascii_of_nat (n + 32) else c.

(** [s.lower()] *)
Fixpoint lower (s : string) : string :=
  match s with
  | EmptyString => EmptyString
  | String c r => String (lower_char c) (lower r)
  end.

(** [x in l] for a list of strings *)
Fixpoint mem (x : string) (l : list string) : bool :=
  match l with
  | [] => false
  | y :: r => (x =? y) || mem x r
  end.

(** [posixpath.splitext] of the Python library, used for the concrete
    worlds of the examples: the extension starts at the last dot of the
    last path component, unless that component has only leading dots
    before it. *)
Fixpoint rfind (c : ascii) (s : string) (i : nat) (last : option nat)
  : option nat :=
  match s with
  | EmptyString => last
  | String d r => rfind c r (S i) (if Ascii.eqb c d then Some i else last)
  end.

Fixpoint all_dots (s : string) (from upto : nat) (i : nat) : bool :=
  match s with
  | EmptyString => true
  | String d r =>
      (if ((from <=? i)%nat && (i <? upto)%nat)%bool
       then Ascii.eqb d "." else true)
      && all_dots r from upto (S i)
  end.

Definition posix_splitext (p : string) : string * string :=
  let filenameIndex :=
    match rfind "/" p 0 None with Some i => S i | None => 0 end in
  match rfind "." p 0 None with
  | Some dotIndex =>
      if (filenameIndex <=? dotIndex)%nat
         && negb (all_dots p filenameIndex dotIndex 0)
      then (substring 0 dotIndex p,
            substring dotIndex (String.length p - dotIndex) p)
      else (p, "")
  | None => (p, "")
  end.

End Py.

(** ** What the process does and how it ends *)

(** A call into a library either returns a value or raises an [Exception]
    whose message is [str(e)]. *)
Inductive attempt (A : Type) : Type :=
| Returned (value : A)
| Raised (e : string).
Arguments Returned {A} value.
Arguments Raised {A} e.

(** Opening a text file as UTF-8 can moreover raise [UnicodeDecodeError],
    which the plain-text extractor handles apart. *)
Inductive read_attempt : Type :=
| ReadOk (text : string)
| DecodeError (e : string)
| ReadError (e : string).

Inductive event : Type :=
| Print (line : string)
    (* print(line) *)
| Completion (prompt : string) (r : attempt (option string))
    (* client.chat.completions.create(... "user": prompt ...) and
       response.choices[0].message.content, a text or None *)
| Write (path : string) (content : option string) (err : option string)
    (* open(path, 'w') and write(content), content a text or None; err is
       the exception, if any *).

Inductive outcome (A : Type) : Type :=
| Ret (a : A)                 (* the computation goes on with a *)
| SysExit (code : Z)          (* sys.exit(code) *)
| Uncaught (exn : string)     (* an exception nothing catches *).
Arguments Ret {A} a.
Arguments SysExit {A} code.
Arguments Uncaught {A} exn.

(** The world around the program. *)
Record World : Type := {
  (* os.path.exists *)
  path_exists : string -> bool;
  (* os.path.splitext *)
  splitext : string -> string * string;
  (* the body of the try of extract_text_from_url: requests.get,
     raise_for_status, BeautifulSoup, get_text and the clean-up *)
  fetch_url_text : string -> attempt string;
  (* the body of the try of extract_text_from_pdf *)
  read_pdf : string -> attempt string;
  (* the body of the try of extract_text_from_docx *)
  read_docx : string -> attempt string;
  (* the body of the try of extract_text_from_csv *)
  read_csv : string -> attempt string;
  (* open(file_path, 'r', encoding='utf-8').read() *)
  read_utf8 : string -> read_attempt;
  (* open(file_path, 'r', encoding='latin-1').read() *)
  read_latin1 : string -> attempt string;
  (* RecursiveCharacterTextSplitter(chunk_size, chunk_overlap,
     length_function=len).split_text(text) *)
  split_text : nat -> nat -> string -> list string;
  (* the completion backend: its answer to a prompt may depend on the
     prompts it received before; the content of the answer is declared
     Optional[str] by the client, so it is a text or None *)
  create : list string -> string -> attempt (option string);
  (* writing a text to a file: None on success, the exception otherwise *)
  write_file : string -> string -> option string;
  (* open(path, 'w') followed by write(None), which always raises: the
     exception of open when it fails, the TypeError of write otherwise *)
  write_none_error : string -> string
}.

(** ** The monad of the program

    A computation receives the prompts sent to the backend so far and
    yields the events it adds and its outcome. *)

Definition M (A : Type) : Type := list string -> list event * outcome A.

Fixpoint prompts_of (es : list event) : list string :=
  match es with
  | [] => []
  | Completion p _ :: r => p :: prompts_of r
  | _ :: r => prompts_of r
  end.

Definition ret {A} (a : A) : M A := fun _ => ([], Ret a).

Definition bind {A B} (m : M A) (f : A -> M B) : M B :=
  fun h =>
    match m h with
    | (es, Ret a) =>
        let (es', r) := f a (h ++ prompts_of es)%list in ((es ++ es')%list, r)
    | (es, SysExit c) => (es, SysExit c)
    | (es, Uncaught x) => (es, Uncaught x)
    end.

Declare Scope prog_scope.
Delimit Scope prog_scope with prog.
Notation "x <- m ;; k" := (bind m (fun x => k))
  (at level 61, m at next level, right associativity) : prog_scope.
Notation "m ;; k" := (bind m (fun _ => k))
  (at level 61, right associativity) : prog_scope.
Open Scope prog_scope.

Definition print (line : string) : M unit := fun _ => ([Print line], Ret tt).

Definition sys_exit {A} (code : Z) : M A := fun _ => ([], SysExit code).

Definition raise {A} (exn : string) : M A := fun _ => ([], Uncaught exn).

(** [if b: m] *)
Definition when (b : bool) (m : M unit) : M unit :=
  if b then m else ret tt.

Definition events {A} (m : M A) : list event := fst (m []).
Definition result {A} (m : M A) : outcome A := snd (m []).

(** ** The program *)

Import Py.

(** The completion request and the write of the output file, as events. *)
Definition chat_completions_create (w : World) (prompt : string)
  : M (attempt (option string)) :=
  fun h => ([Completion prompt (create w h prompt)], Ret (create w h prompt)).

(** The exception of [open(path, 'w')] followed by [write(content)], if
    any; [write(None)] always raises. *)
Definition write_error (w : World) (path : string) (content : option string)
  : option string :=
  match content with
  | Some text => write_file w path text
  | None => Some (write_none_error w path)
  end.

Definition open_and_write (w : World) (path : string)
  (content : option string) : M (option string) :=
  fun _ => ([Write path content (write_error w path content)],
            Ret (write_error w path content)).

(** [try: return <library call> except Exception as e: print(...); return None] *)
Definition or_report (a : attempt string) (what : string) (src : string)
  : M (option string) :=
  match a with
  | Returned text => ret (Some text)
  | Raised e =>
      print ("Error extracting text from " ++ what ++ src ++ ": " ++ e) ;;
      ret None
  end.

Definition extract_text_from_url (w : World) (url : string) : M (option string) :=
  or_report (fetch_url_text w url) "URL " url.

Definition extract_text_from_pdf (w : World) (file_path : string)
  : M (option string) :=
  or_report (read_pdf w file_path) "PDF " file_path.

Definition extract_text_from_docx (w : World) (file_path : string)
  : M (option string) :=
  or_report (read_docx w file_path) "DOCX " file_path.

Definition extract_text_from_csv (w : World) (file_path : string)
  : M (option string) :=
  or_report (read_csv w file_path) "CSV " file_path.

Definition extract_text_from_text_file (w : World) (file_path : string)
  : M (option string) :=
  match read_utf8 w file_path with
  | ReadOk text => ret (Some text)
  | DecodeError _ => or_report (read_latin1 w file_path) "file " file_path
  | ReadError e => or_report (Raised e) "file " file_path
  end.

Definition process_input (w : World) (input_source : string)
  : M (option string) :=
  if startswith input_source "http://" || startswith input_source "https://"
  then
    print ("Processing URL: " ++ input_source) ;;
    extract_text_from_url w input_source
  else if negb (path_exists w input_source) then
    print ("Error: File not found: " ++ input_source) ;;
    ret None
  else
    let file_extension := lower (snd (splitext w input_source)) in
    print ("Processing file: " ++ input_source) ;;
    if file_extension =? ".pdf" then extract_text_from_pdf w input_source
    else if file_extension =? ".docx" then extract_text_from_docx w input_source
    else if file_extension =? ".csv" then extract_text_from_csv w input_source
    else if mem file_extension [".txt"; ".md"; ".json"; ".html"; ".htm"]
    then extract_text_from_text_file w input_source
    else
      print ("Warning: Unrecognized file extension for " ++ input_source
             ++ ". Trying as text file.") ;;
      extract_text_from_text_file w input_source.

Definition split_text_into_chunks (w : World) (text : string)
  (chunk_size chunk_overlap : nat) : list string :=
  split_text w chunk_size chunk_overlap text.

(** The prompt of [process_with_llm]; [not query] holds of [None] and of
    the empty string. *)
Definition make_prompt (content : string) (query : option string) : string :=
  if truthy_opt query then
    match query with
    | Some q => q ++ nl ++ nl ++ "Content:" ++ nl ++ content
    | None => ""
    end
  else
    "Please summarize the following content concisely:" ++ nl ++ nl ++ content.

(** [process_with_llm] hands back [message.content] as it is: a text, or
    [None] when the answer has no content. *)
Definition process_with_llm (w : World) (content : string)
  (query : option string) : M (option string) :=
  let prompt := make_prompt content query in
  response <- chat_completions_create w prompt ;;
  match response with
  | Returned message_content => ret message_content
  | Raised e =>
      print ("Error calling OpenAI API: " ++ e) ;;
      sys_exit 1
  end.

(** The command line, as argparse hands it to [main]. *)
Record Args : Type := {
  inputs : list string;
  query : option string;
  output : option string;
  verbose : bool
}.

(** [main], lines 310-318: the loop over [args.inputs]. *)
Fixpoint collect (w : World) (args : Args) (sources : list string)
  (all_content : list string) : M (list string) :=
  match sources with
  | [] => ret all_content
  | input_source :: rest =>
      content <- process_input w input_source ;;
      match content with
      | Some text =>
          if truthy text then
            when (verbose args)
              (print ("Extracted " ++ str_of_nat (String.length text)
                      ++ " characters from " ++ input_source)) ;;
            collect w args rest (all_content ++ [text])
          else collect w args rest all_content
      | None => collect w args rest all_content
      end
  end.

Definition no_content_message : string :=
  "Error: No content could be extracted from the provided inputs.".

(** [main], line 326. *)
Definition combined_content (all_content : list string) : string :=
  nl ++ nl ++ repeat_str "-" 30 ++ " DOCUMENT SEPARATOR " ++ repeat_str "-" 30
  ++ join (nl ++ nl) all_content.

(** [main], lines 339-344: the loop over [enumerate(chunks)]. *)
Fixpoint map_chunks (w : World) (args : Args) (total : nat) (i : nat)
  (chunks : list string) (results : list (option string))
  : M (list (option string)) :=
  match chunks with
  | [] => ret results
  | chunk :: rest =>
      when (verbose args)
        (print ("Processing chunk " ++ str_of_nat (i + 1) ++ "/"
                ++ str_of_nat total)) ;;
      result <- process_with_llm w chunk (query args) ;;
      map_chunks w args total (S i) rest (results ++ [result])
  end.

Definition reduce_directive : string :=
  "Combine the following summaries into a coherent single summary, removing redundancies:".

(** The items of a list when they are all texts; [None] when one of them
    is [None], which is when [str.join] raises TypeError. *)
Fixpoint all_texts (l : list (option string)) : option (list string) :=
  match l with
  | [] => Some []
  | Some s :: r =>
      match all_texts r with
      | Some texts => Some (s :: texts)
      | None => None
      end
  | None :: _ => None
  end.

(** [main], lines 330-357: the branch of a corpus over the limit. *)
Definition chunk_and_reduce (w : World) (args : Args) (corpus : string)
  : M (option string) :=
  when (verbose args)
    (print ("Content size (" ++ str_of_nat (String.length corpus)
            ++ " chars) exceeds processing limit. Chunking content...")) ;;
  let chunks := split_text_into_chunks w corpus 2000 200 in
  when (verbose args)
    (print ("Split content into " ++ str_of_nat (List.length chunks)
            ++ " chunks")) ;;
  results <- map_chunks w args (List.length chunks) 0 chunks [] ;;
  if (1 <? List.length results)%nat then
    when (verbose args) (print "Combining results from multiple chunks...") ;;
    match all_texts results with
    | Some texts =>
        let combined_results := join (nl ++ nl) texts in
        process_with_llm w combined_results (Some reduce_directive)
    | None => raise "TypeError"
    end
  else
    match results with
    | r :: _ => ret r
    | [] => raise "IndexError"
    end.

(** [main], lines 326-360: from the extracted texts to [final_result]. *)
Definition process (w : World) (args : Args) (all_content : list string)
  : M (option string) :=
  let corpus := combined_content all_content in
  if (4000 <? String.length corpus)%nat then
    chunk_and_reduce w args corpus
  else
    process_with_llm w corpus (query args).

(** [main], lines 362-376. *)
Definition emit (w : World) (args : Args) (final_result : option string)
  : M unit :=
  if truthy_opt (output args) then
    match output args with
    | Some path =>
        err <- open_and_write w path final_result ;;
        match err with
        | None => print ("Output written to " ++ path)
        | Some e =>
            print ("Error writing to output file: " ++ e) ;;
            print (str_of_value final_result)
        end
    | None => ret tt
    end
  else
    print (nl ++ repeat_str "=" 80 ++ nl) ;;
    print (str_of_value final_result) ;;
    print (nl ++ repeat_str "=" 80).

(** [main], lines 310-360: everything up to [final_result]. *)
Definition pipeline (w : World) (args : Args) : M (option string) :=
  all_content <- collect w args (inputs args) [] ;;
  match all_content with
  | [] =>
      print no_content_message ;;
      sys_exit 1
  | _ :: _ => process w args all_content
  end.

Definition main (w : World) (args : Args) : M unit :=
  final_result <- pipeline w args ;;
  emit w args final_result.

(** ** The rules of the specification, in its own words *)

(** The router of the specification: which extractor an input reference
    goes to. *)
Inductive extractor : Type :=
| UrlExtractor | PdfExtractor | DocxExtractor | CsvExtractor | TextExtractor.

Inductive routing : Type :=
| NotFound
| Route (e : extractor) (warning : bool).

(** Two characters that are the same letter: the same character, or one
    of the letters A..Z (codes 65 to 90) and its lower-case form, 32 codes
    further. *)
Definition same_letter (x y : ascii) : bool :=
  let m := nat_of_ascii x in
  let n := nat_of_ascii y in
  (m =? n)%nat
  || ((65 <=? m)%nat && (m <=? 90)%nat && (n =? m + 32)%nat)
  || ((65 <=? n)%nat && (n <=? 90)%nat && (m =? n + 32)%nat).

(** Comparison of two strings without regard to case: the same length and
    the same letter at every place. *)
Fixpoint eq_nocase (a b : string) : bool :=
  match a, b with
  | EmptyString, EmptyString => true
  | String x a', String y b' => same_letter x y && eq_nocase a' b'
  | _, _ => false
  end.

(** The dispatch rule as the specification words it: a URL scheme prefix
    first, then existence of the path, then the extension compared without
    regard to case, unknown extensions falling back to plain text with a
    warning. *)
Definition dispatch_rule (w : World) (reference : string) : routing :=
  if startswith reference "http://" then Route UrlExtractor false
  else if startswith reference "https://" then Route UrlExtractor false
  else if path_exists w reference then
    let ext := snd (splitext w reference) in
    if eq_nocase ext ".pdf" then Route PdfExtractor false
    else if eq_nocase ext ".docx" then Route DocxExtractor false
    else if eq_nocase ext ".csv" then Route CsvExtractor false
    else if eq_nocase ext ".txt" then Route TextExtractor false
    else if eq_nocase ext ".md" then Route TextExtractor false
    else if eq_nocase ext ".json" then Route TextExtractor false
    else if eq_nocase ext ".html" then Route TextExtractor false
    else if eq_nocase ext ".htm" then Route TextExtractor false
    else Route TextExtractor true
  else NotFound.

Definition run_extractor (w : World) (e : extractor) (reference : string)
  : M (option string) :=
  match e with
  | UrlExtractor => extract_text_from_url w reference
  | PdfExtractor => extract_text_from_pdf w reference
  | DocxExtractor => extract_text_from_docx w reference
  | CsvExtractor => extract_text_from_csv w reference
  | TextExtractor => extract_text_from_text_file w reference
  end.

(** What following a routing decision means for the process. *)
Definition follow (w : World) (reference : string) (r : routing)
  : M (option string) :=
  match r with
  | NotFound =>
      print ("Error: File not found: " ++ reference) ;;
      ret None
  | Route UrlExtractor _ =>
      print ("Processing URL: " ++ reference) ;;
      run_extractor w UrlExtractor reference
  | Route e false =>
      print ("Processing file: " ++ reference) ;;
      run_extractor w e reference
  | Route e true =>
      print ("Processing file: " ++ reference) ;;
      print ("Warning: Unrecognized file extension for " ++ reference
             ++ ". Trying as text file.") ;;
      run_extractor w e reference
  end.

(** The prompt of a request as the specification words it: without an
    instruction the default instruction to summarize and the text;
    otherwise the instruction, then the text under a "Content:" label.
    An empty instruction counts as none. *)
Definition prompt_as_specified (instruction : option string)
  (text : string) : string :=
  match instruction with
  | None =>
      "Please summarize the following content concisely:" ++ nl ++ nl ++ text
  | Some given =>
      if given =? "" then
        "Please summarize the following content concisely:" ++ nl ++ nl
        ++ text
      else given ++ nl ++ nl ++ "Content:" ++ nl ++ text
  end.

(** The separator banner between two documents. *)
Definition separator_banner : string :=
  nl ++ nl ++ repeat_str "-" 30 ++ " DOCUMENT SEPARATOR " ++ repeat_str "-" 30
  ++ nl ++ nl.

(** The corpus as the specification words it: the documents in order, the
    banner between every two neighbours. *)
Definition corpus_as_specified (documents : list string) : string :=
  join separator_banner documents.

(** ** Reading a run *)

(** The completion requests of a run, with their answers. *)
Fixpoint completions (es : list event)
  : list (string * attempt (option string)) :=
  match es with
  | [] => []
  | Completion p r :: rest => (p, r) :: completions rest
  | _ :: rest => completions rest
  end.

(** The lines a run prints. *)
Fixpoint console (es : list event) : list string :=
  match es with
  | [] => []
  | Print line :: rest => line :: console rest
  | _ :: rest => console rest
  end.

(** What a run does besides printing. *)
Fixpoint effects (es : list event) : list event :=
  match es with
  | [] => []
  | Print _ :: rest => effects rest
  | e :: rest => e :: effects rest
  end.

Definition is_print (e : event) : bool :=
  match e with Print _ => true | _ => false end.

Definition is_write (e : event) : bool :=
  match e with Write _ _ _ => true | _ => false end.

Definition is_failed_completion (e : event) : bool :=
  match e with Completion _ (Raised _) => true | _ => false end.

(** [loud] is [quiet] with more printed lines, and nothing else changed. *)
Inductive adds_prints : list event -> list event -> Prop :=
| ap_nil : adds_prints [] []
| ap_same e quiet loud :
    adds_prints quiet loud -> adds_prints (e :: quiet) (e :: loud)
| ap_more line quiet loud :
    adds_prints quiet loud -> adds_prints quiet (Print line :: loud).

(** Two command lines that differ at most in the verbose flag, which the
    first one does not set. *)
Definition quieter (a b : Args) : Prop :=
  inputs a = inputs b /\ query a = query b /\ output a = output b
  /\ verbose a = false.

(** Two computations that end alike, the second with more printed lines
    and nothing else changed. *)
Definition only_louder {A} (quiet loud : M A) : Prop :=
  forall h, snd (quiet h) = snd (loud h)
            /\ adds_prints (fst (quiet h)) (fst (loud h)).

(** A computation that adds only events of the kind [P]. *)
Definition adds_only (P : event -> bool) {A} (m : M A) : Prop :=
  forall h, Forall (fun e => P e = true) (fst (m h)).

(** A computation that always goes on, with the same events and the same
    value whatever was sent to the backend, and sends nothing itself. *)
Definition steady {A} (m : M A) : Prop :=
  exists es a, prompts_of es = [] /\ forall h, m h = (es, Ret a).

(** The text a run of an extractor hands back. *)
Definition text_of (r : outcome (option string)) : option string :=
  match r with Ret content => content | _ => None end.

(** The text [process_input] hands back for an input reference. *)
Definition extracted (w : World) (input_source : string) : option string :=
  text_of (result (process_input w input_source)).

(** [if content:] *)
Definition yields_content (w : World) (input_source : string) : bool :=
  truthy_opt (extracted w input_source).

(** The texts that reach [all_content], in the order of the inputs. *)
Fixpoint contents_of (w : World) (sources : list string) : list string :=
  match sources with
  | [] => []
  | input_source :: rest =>
      match extracted w input_source with
      | Some text =>
          if truthy text then text :: contents_of w rest
          else contents_of w rest
      | None => contents_of w rest
      end
  end.

(** What one turn of the loop over the inputs prints. *)
Definition input_log (w : World) (args : Args) (input_source : string)
  : list event :=
  (events (process_input w input_source)
   ++ match extracted w input_source with
      | Some text =>
          if truthy text && verbose args
          then [Print ("Extracted " ++ str_of_nat (String.length text)
                       ++ " characters from " ++ input_source)]
          else []
      | None => []
      end)%list.

(** The events hold an error line that names the input reference. *)
Definition logged_error (input_source : string) (es : list event) : Prop :=
  exists a b, In (Print ("Error" ++ a ++ input_source ++ b)) es.

(** The run ends in the fatal "no content" exit. *)
Definition aborts_no_content {A} (run : list event * outcome A) : Prop :=
  snd run = SysExit 1
  /\ last (fst run) (Print "") = Print no_content_message.

(** The answers of the backend to a sequence of prompts sent one after the
    other, after the prompts [h]. *)
Fixpoint answers (w : World) (h : list string) (prompts : list string)
  : list (attempt (option string)) :=
  match prompts with
  | [] => []
  | p :: rest => create w h p :: answers w (h ++ [p]) rest
  end.

Definition api_error_line (e : string) : event :=
  Print ("Error calling OpenAI API: " ++ e).

(** The shape of a run of the part of the program that talks to the
    backend: either no request failed and the part did not exit, or the
    run stops right after the report of the first failed request. *)
Definition fail_fast {A} (run : list event * outcome A) : Prop :=
  (Forall (fun e => is_failed_completion e = false) (fst run)
   /\ forall c, snd run <> SysExit c)
  \/ (exists before p e,
        fst run = (before ++ [Completion p (Raised e); api_error_line e])%list
        /\ Forall (fun ev => is_failed_completion ev = false) before
        /\ snd run = SysExit 1).

Definition fails_fast {A} (m : M A) : Prop := forall h, fail_fast (m h).

(** The console of the run without an output file: the result between two
    separator lines. *)
Definition framed_block (final_result : string) : list string :=
  [nl ++ repeat_str "=" 80 ++ nl; final_result; nl ++ repeat_str "=" 80].

Definition framed_in (final_result : string) (lines : list string) : Prop :=
  exists above below, lines = (above ++ framed_block final_result ++ below)%list.

(** The fallback as the specification words it: when the write of the
    output file fails, the run goes on and the result is on the console
    between separator lines. *)
Definition fallback_as_specified (w : World) (args : Args)
  (final_result : string) : Prop :=
  forall path e,
    output args = Some path ->
    write_file w path final_result = Some e ->
    result (emit w args (Some final_result)) = Ret tt
    /\ framed_in final_result
         (console (events (emit w args (Some final_result)))).

(** The size decision as the specification words it: below 4000
    characters one request for the whole corpus, otherwise the chunking
    branch. *)
Definition size_decision_as_specified (w : World) (args : Args)
  (all_content : list string) (h : list string) : Prop :=
  let corpus := combined_content all_content in
  ((String.length corpus < 4000)%nat ->
     process w args all_content h
     = process_with_llm w corpus (query args) h)
  /\ (~ (String.length corpus < 4000)%nat ->
     process w args all_content h = chunk_and_reduce w args corpus h).

(** The map step as the specification words it: on the chunking branch
    the run sends one request per chunk, in the order of the chunks, and
    whatever it sends after them. *)
Definition one_request_per_chunk (w : World) (args : Args)
  (all_content : list string) (h : list string) : Prop :=
  let corpus := combined_content all_content in
  let chunks := split_text_into_chunks w corpus 2000 200 in
  (4000 < String.length corpus)%nat ->
  exists rest,
    prompts_of (fst (process w args all_content h))
    = (map (prompt_as_specified (query args)) chunks ++ rest)%list.

(** ** Worlds and command lines for the examples *)

Module Demo.

Definition world : World := {|
  path_exists := fun p => negb (p =? "missing.txt");
  splitext := posix_splitext;
  fetch_url_text := fun _ => Raised "timed out";
  read_pdf := fun _ => Returned "pdf text";
  read_docx := fun _ => Returned "";
  read_csv := fun _ => Raised "bad row";
  read_utf8 := fun p =>
    if p =? "latin.txt" then DecodeError "invalid start byte"
    else if p =? "long.txt" then ReadOk (repeat_str "a" 3918)
    else if p =? "longer.txt" then ReadOk (repeat_str "a" 3919)
    else ReadOk ("text of " ++ p);
  read_latin1 := fun _ => Returned "latin text";
  split_text := fun _ _ _ => ["first chunk"; "second chunk"];
  create := fun h _ =>
    Returned (Some ("answer " ++ str_of_nat (List.length h)));
  write_file := fun _ _ => Some "No such file or directory";
  write_none_error := fun _ => "No such file or directory"
|}.

(** The same world with another backend. *)
Definition with_backend (w : World)
  (backend : list string -> string -> attempt (option string)) : World := {|
  path_exists := path_exists w;
  splitext := splitext w;
  fetch_url_text := fetch_url_text w;
  read_pdf := read_pdf w;
  read_docx := read_docx w;
  read_csv := read_csv w;
  read_utf8 := read_utf8 w;
  read_latin1 := read_latin1 w;
  split_text := split_text w;
  create := backend;
  write_file := write_file w;
  write_none_error := write_none_error w
|}.

(** A backend that answers the first request and fails at the second. *)
Definition world_failing_second : World :=
  with_backend world
    (fun h _ => match h with
                | [] => Returned (Some "answer 0")
                | _ :: _ => Raised "rate limit"
                end).

Definition args_of (sources : list string) (out : option string) (v : bool)
  : Args :=
  {| inputs := sources; query := None; output := out; verbose := v |}.

End Demo.

(** ** The rest of the program *)

(** The module-level code, lines 61-68: after [load_dotenv()],
    [api_key] is what [os.getenv("OPENAI_API_KEY")] hands back. *)
Definition startup (api_key : option string) : M unit :=
  if truthy_opt api_key then ret tt
  else
    print "Error: OpenAI API key not found. Please set the OPENAI_API_KEY environment variable." ;;
    print "Create a .env file in the same directory with: OPENAI_API_KEY=your_key_here" ;;
    sys_exit 1.

(** The file run as a script: the module-level code, then [main] on the
    parsed command line (lines 379-380). *)
Definition script (w : World) (api_key : option string) (args : Args)
  : M unit :=
  startup api_key ;;
  main w args.

(** The body of the try of [extract_text_from_pdf], lines 119-126, on the
    texts of the pages. *)
Definition pdf_text (pages : list string) : string :=
  fold_left (fun text page => text ++ page ++ nl) pages "".

(** The body of the try of [extract_text_from_docx], lines 143-148, on the
    texts of the paragraphs. *)
Definition docx_text (paragraphs : list string) : string :=
  join nl paragraphs.

(** The body of the try of [extract_text_from_csv], lines 164-171, on the
    rows of the reader. *)
Definition csv_text (rows : list (list string)) : string :=
  join nl (map (join ", ") rows).

(** *** The clean-up of [extract_text_from_url], lines 98-101

    The characters of a text are taken as the code points below 256. *)

(** [c.isspace()] *)
Definition is_space (c : ascii) : bool :=
  let n := nat_of_ascii c in
  ((9 <=? n)%nat && (n <=? 13)%nat) || ((28 <=? n)%nat && (n <=? 32)%nat)
  || (n =? 133)%nat || (n =? 160)%nat.

(** the line boundaries of [str.splitlines] *)
Definition is_linebreak (c : ascii) : bool :=
  let n := nat_of_ascii c in
  ((10 <=? n)%nat && (n <=? 13)%nat) || ((28 <=? n)%nat && (n <=? 30)%nat)
  || (n =? 133)%nat.

(** Put a character in front of the first string of a list. *)
Definition cons_to_first (c : ascii) (l : list string) : list string :=
  match l with
  | [] => [String c ""]
  | x :: r => String c x :: r
  end.

(** The pieces between the line boundaries, the piece after the last
    boundary included; a carriage return and the line feed after it are
    one boundary. *)
Fixpoint lines_raw (s : string) : list string :=
  match s with
  | EmptyString => [""]
  | String c r =>
      if is_linebreak c then
        match r with
        | String d r' =>
            if Ascii.eqb c "013" && Ascii.eqb d "010"
            then "" :: lines_raw r'
            else "" :: lines_raw r
        | EmptyString => "" :: lines_raw r
        end
      else cons_to_first c (lines_raw r)
  end.

(** Drop the last element of a list when it is the empty string. *)
Fixpoint drop_last_empty (l : list string) : list string :=
  match l with
  | [] => []
  | [x] => if x =? "" then [] else [x]
  | x :: r => x :: drop_last_empty r
  end.

(** [s.splitlines()] *)
Definition splitlines (s : string) : list string :=
  drop_last_empty (lines_raw s).

(** [s.lstrip()] *)
Fixpoint lstrip (s : string) : string :=
  match s with
  | EmptyString => ""
  | String c r => if is_space c then lstrip r else s
  end.

(** [s.rstrip()] *)
Fixpoint rstrip (s : string) : string :=
  match s with
  | EmptyString => ""
  | String c r =>
      match rstrip r with
      | EmptyString => if is_space c then "" else String c ""
      | String d r' => String c (String d r')
      end
  end.

(** [s.strip()] *)
Definition strip (s : string) : string := rstrip (lstrip s).

(** [s.split("  ")]: the pieces between the occurrences of two spaces,
    found from the left. *)
Fixpoint split_double_space (s : string) : list string :=
  match s with
  | EmptyString => [""]
  | String c r =>
      match r with
      | String d r' =>
          if Ascii.eqb c " " && Ascii.eqb d " "
          then "" :: split_double_space r'
          else cons_to_first c (split_double_space r)
      | EmptyString => [String c ""]
      end
  end.

(** Lines 99-101 of [extract_text_from_url]. *)
Definition clean_text (text : string) : string :=
  let lines := map strip (splitlines text) in
  let chunks :=
    flat_map (fun line => map strip (split_double_space line)) lines in
  join nl (filter truthy chunks).

(** A string without line boundary. *)
Fixpoint no_linebreak (s : string) : bool :=
  match s with
  | EmptyString => true
  | String c r => negb (is_linebreak c) && no_linebreak r
  end.

(** A string without two spaces in a row. *)
Fixpoint no_double_space (s : string) : bool :=
  match s with
  | EmptyString => true
  | String c r =>
      match r with
      | String d _ =>
          negb (Ascii.eqb c " " && Ascii.eqb d " ") && no_double_space r
      | EmptyString => true
      end
  end.

(** A string made of white space only. *)
Fixpoint all_space (s : string) : bool :=
  match s with
  | EmptyString => true
  | String c r => is_space c && all_space r
  end.

(** A line as the clean-up leaves it: not empty, no white space at either
    end, no line boundary and no two spaces in a row inside. *)
Definition tidy_line (s : string) : bool :=
  truthy s && (strip s =? s) && no_linebreak s && no_double_space s.

(** The characters of a string that are not white space, in order. *)
Fixpoint ink (s : string) : string :=
  match s with
  | EmptyString => ""
  | String c r => if is_space c then ink r else String c (ink r)
  end.

(** The same for the strings of a list, one after the other. *)
Fixpoint inks (l : list string) : string :=
  match l with
  | [] => ""
  | s :: r => ink s ++ inks r
  end.

(** What [lines_raw] goes on with after a line boundary [c]. *)
Definition after_linebreak (c : ascii) (r : string) : string :=
  match r with
  | String d r' => if Ascii.eqb c "013" && Ascii.eqb d "010" then r' else r
  | EmptyString => r
  end.

(** A string that does not start with white space. *)
Definition starts_tidy (s : string) : bool :=
  match s with
  | String c _ => negb (is_space c)
  | EmptyString => true
  end.

(** *** Measures and variants of a command line *)

Fixpoint total_length (l : list string) : nat :=
  match l with
  | [] => 0
  | s :: r => String.length s + total_length r
  end.

(** What [process_with_llm] puts in front of the content. *)
Definition prompt_overhead (q : option string) : nat :=
  match q with
  | Some s => if truthy s then String.length s + 11 else 51
  | None => 51
  end.

Definition with_output (args : Args) (o : option string) : Args :=
  {| inputs := inputs args; query := query args; output := o;
     verbose := verbose args |}.


(** The number of requests a run may send for a list of extracted texts:
    one for a corpus within the limit, one per chunk and one more
    otherwise. *)
Definition request_budget (w : World) (all_content : list string) : nat :=
  match all_content with
  | [] => 0
  | _ :: _ =>
      if (4000 <? String.length (combined_content all_content))%nat
      then List.length
             (split_text_into_chunks w (combined_content all_content) 2000 200)
           + 1
      else 1
  end.

(** A world with another way of writing files. *)
Definition with_writer (w : World) (writer : string -> string -> option string)
  (none_error : string -> string) : World := {|
  path_exists := path_exists w;
  splitext := splitext w;
  fetch_url_text := fetch_url_text w;
  read_pdf := read_pdf w;
  read_docx := read_docx w;
  read_csv := read_csv w;
  read_utf8 := read_utf8 w;
  read_latin1 := read_latin1 w;
  split_text := split_text w;
  create := create w;
  write_file := writer;
  write_none_error := none_error
|}.

(** The world of the examples with a disk that can be written. *)
Definition world_writable : World :=
  with_writer Demo.world (fun _ _ => None)
    (fun _ => "write() argument must be str, not None").

(** A world with another text splitter. *)
Definition with_splitter (w : World)
  (splitter : nat -> nat -> string -> list string) : World := {|
  path_exists := path_exists w;
  splitext := splitext w;
  fetch_url_text := fetch_url_text w;
  read_pdf := read_pdf w;
  read_docx := read_docx w;
  read_csv := read_csv w;
  read_utf8 := read_utf8 w;
  read_latin1 := read_latin1 w;
  split_text := splitter;
  create := create w;
  write_file := write_file w;
  write_none_error := write_none_error w
|}.

(** A world whose splitter hands back three chunks and whose backend
    fails at the second request. *)
Definition world_three_chunks_failing_second : World :=
  with_splitter Demo.world_failing_second
    (fun _ _ _ => ["first chunk"; "second chunk"; "third chunk"]).

(** A world whose backend answers the first request with a text and the
    later ones without content. *)
Definition world_answer_without_content : World :=
  Demo.with_backend Demo.world
    (fun h _ => match h with
                | [] => Returned (Some "answer 0")
                | _ :: _ => Returned None
                end).

(** The world of the examples with a splitter that hands back no chunk. *)
Definition world_without_chunks : World :=
  with_splitter Demo.world (fun _ _ _ => []).

(** The progress line of chunk [k] out of [total]. *)
Definition chunk_line (total k : nat) : string :=
  "Processing chunk " ++ str_of_nat k ++ "/" ++ str_of_nat total.

(** One turn of the loop over the chunks, for chunk number [k] out of
    [total]: the progress line when the verbose flag is set, then the
    request with its answer. *)
Definition chunk_turn (args : Args) (total k : nat) (chunk : string)
  (answer : option string) : list event :=
  ((if verbose args then [Print (chunk_line total k)] else [])
   ++ [Completion (make_prompt chunk (query args)) (Returned answer)])%list.

(** The turns of the chunks, numbered from [k] on. *)
Fixpoint chunk_turns (args : Args) (total k : nat) (chunks : list string)
  (answers : list (option string)) : list event :=
  match chunks, answers with
  | chunk :: chunks', answer :: answers' =>
      (chunk_turn args total k chunk answer
       ++ chunk_turns args total (S k) chunks' answers')%list
  | _, _ => []
  end.

(** ** Running the monad *)

Lemma append_assoc (a b c : string) : (a ++ b) ++ c = a ++ b ++ c.
Proof. induction a as [|x a IH]; simpl; [reflexivity | rewrite IH; reflexivity]. Qed.

Lemma append_nil_r (a : string) : a ++ "" = a.
Proof. induction a as [|x a IH]; simpl; [reflexivity | rewrite IH; reflexivity]. Qed.

Lemma bind_run {A B} (m : M A) (f : A -> M B) h es a :
  m h = (es, Ret a) ->
  bind m f h
  = ((es ++ fst (f a (h ++ prompts_of es)))%list,
     snd (f a (h ++ prompts_of es)%list)).
Proof.
  intros E. unfold bind. rewrite E.
  destruct (f a (h ++ prompts_of es)%list); reflexivity.
Qed.

Lemma bind_exit {A B} (m : M A) (f : A -> M B) h es c :
  m h = (es, SysExit c) -> bind m f h = (es, SysExit c).
Proof. intros E. unfold bind. rewrite E. reflexivity. Qed.

Lemma bind_uncaught {A B} (m : M A) (f : A -> M B) h es x :
  m h = (es, Uncaught x) -> bind m f h = (es, Uncaught x).
Proof. intros E. unfold bind. rewrite E. reflexivity. Qed.

Lemma bind_ret_run {A B} (a : A) (f : A -> M B) h : bind (ret a) f h = f a h.
Proof.
  unfold bind, ret. simpl. rewrite app_nil_r. destruct (f a h); reflexivity.
Qed.

Lemma bind_print_run {B} line (f : unit -> M B) h :
  bind (print line) f h = (Print line :: fst (f tt h), snd (f tt h)).
Proof.
  unfold bind, print. simpl. rewrite app_nil_r. destruct (f tt h); reflexivity.
Qed.

Lemma bind_when_run {B} b line (f : unit -> M B) h :
  bind (when b (print line)) f h
  = (((if b then [Print line] else []) ++ fst (f tt h))%list, snd (f tt h)).
Proof.
  destruct b; simpl when.
  - apply bind_print_run.
  - rewrite bind_ret_run. destruct (f tt h); reflexivity.
Qed.

Lemma prompts_of_app a b :
  prompts_of (a ++ b) = (prompts_of a ++ prompts_of b)%list.
Proof.
  induction a as [|e a IH]; [reflexivity|].
  destruct e; simpl; rewrite IH; reflexivity.
Qed.

Lemma completions_app a b :
  completions (a ++ b) = (completions a ++ completions b)%list.
Proof.
  induction a as [|e a IH]; [reflexivity|].
  destruct e; simpl; rewrite IH; reflexivity.
Qed.

Lemma prompts_of_completions es : prompts_of es = map fst (completions es).
Proof.
  induction es as [|e es IH]; [reflexivity|].
  destruct e; simpl; rewrite IH; reflexivity.
Qed.

(** ** C1: the corpus *)

(** C1. The specification wants the documents joined by the separator
    banner, the banner between every two neighbours.  [main] builds
    something else: the banner once, in front of the first document, and
    only a blank line between two documents.  On the documents "A" and "B"
    the corpus is the banner, then "A", a blank line and "B"; it is not "A",
    the banner, "B", and it is not "A" and "B" joined by any other
    separator either.  A single document "A" also gets the banner in
    front. *)
Theorem combined_content_banner_in_front_only :
  combined_content ["A"; "B"]
  = nl ++ nl ++ "------------------------------ DOCUMENT SEPARATOR ------------------------------"
    ++ "A" ++ nl ++ nl ++ "B"
  /\ corpus_as_specified ["A"; "B"]
     = "A" ++ nl ++ nl
       ++ "------------------------------ DOCUMENT SEPARATOR ------------------------------"
       ++ nl ++ nl ++ "B"
  /\ combined_content ["A"; "B"] <> corpus_as_specified ["A"; "B"]
  /\ (forall banner, combined_content ["A"; "B"] <> join banner ["A"; "B"])
  /\ combined_content ["A"] <> corpus_as_specified ["A"].
Proof.
  split; [reflexivity|]. split; [reflexivity|]. split; [|split].
  - vm_compute. discriminate.
  - intros banner H. unfold combined_content in H. simpl in H. discriminate H.
  - vm_compute. discriminate.
Qed.

(** ** C5: the router *)

Lemma lower_char_code c :
  nat_of_ascii (lower_char c)
  = if ((65 <=? nat_of_ascii c)%nat && (nat_of_ascii c <=? 90)%nat)%bool
    then (nat_of_ascii c + 32)%nat
    else nat_of_ascii c.
Proof.
  unfold lower_char.
  destruct ((65 <=? nat_of_ascii c)%nat && (nat_of_ascii c <=? 90)%nat)%bool
    eqn:E; [|reflexivity].
  apply andb_true_iff in E as [_ E]. apply Nat.leb_le in E.
  apply nat_ascii_embedding. lia.
Qed.

Lemma ascii_eqb_codes x y :
  Ascii.eqb x y = (nat_of_ascii x =? nat_of_ascii y)%nat.
Proof.
  destruct (Ascii.eqb_spec x y) as [->|N].
  - symmetry. apply Nat.eqb_refl.
  - symmetry. apply Nat.eqb_neq. intros E. apply N.
    rewrite <- (ascii_nat_embedding x), <- (ascii_nat_embedding y), E.
    reflexivity.
Qed.

(** Two characters are the same letter exactly when [lower] sends them to
    the same character. *)
Lemma same_letter_lower x y :
  same_letter x y = Ascii.eqb (lower_char x) (lower_char y).
Proof.
  rewrite ascii_eqb_codes, !lower_char_code. unfold same_letter.
  set (m := nat_of_ascii x). set (n := nat_of_ascii y).
  destruct (Nat.leb_spec 65 m), (Nat.leb_spec m 90), (Nat.leb_spec 65 n),
    (Nat.leb_spec n 90); cbn [andb orb];
    destruct (Nat.eqb_spec m n); cbn [andb orb];
    repeat match goal with
           | |- context [(?a =? ?b)%nat] => destruct (Nat.eqb_spec a b)
           end; cbn [andb orb]; try reflexivity; lia.
Qed.

Lemma eq_nocase_lower a : forall b, eq_nocase a b = (lower a =? lower b).
Proof.
  induction a as [|x a IH]; intros [|y b]; try reflexivity.
  cbn [eq_nocase lower String.eqb]. rewrite same_letter_lower, IH.
  reflexivity.
Qed.

(** C5. [process_input] follows the dispatch rule of the specification: a
    reference that starts with http:// or https:// goes to the URL
    extractor; another one that does not exist yields the "not found"
    line and no text; an existing one goes by its extension, compared
    without regard to case, .pdf to the PDF extractor, .docx to the DOCX
    extractor, .csv to the CSV extractor, .txt, .md, .json, .html and .htm
    to the plain-text extractor, and any other extension to the plain-text
    extractor after a warning. *)
Theorem process_input_follows_dispatch_rule :
  forall (w : World) (reference : string) (h : list string),
    process_input w reference h
    = follow w reference (dispatch_rule w reference) h.
Proof.
  intros w reference h. unfold process_input, dispatch_rule.
  rewrite !eq_nocase_lower.
  destruct (startswith reference "http://"); [reflexivity|].
  destruct (startswith reference "https://"); [reflexivity|].
  cbn [orb]. destruct (path_exists w reference); cbn [negb]; [|reflexivity].
  set (ext := lower (snd (splitext w reference))).
  change (lower ".pdf") with ".pdf". change (lower ".docx") with ".docx".
  change (lower ".csv") with ".csv". change (lower ".txt") with ".txt".
  change (lower ".md") with ".md". change (lower ".json") with ".json".
  change (lower ".html") with ".html". change (lower ".htm") with ".htm".
  unfold mem.
  destruct (ext =? ".pdf"); [reflexivity|].
  destruct (ext =? ".docx"); [reflexivity|].
  destruct (ext =? ".csv"); [reflexivity|].
  destruct (ext =? ".txt"); [reflexivity|].
  destruct (ext =? ".md"); [reflexivity|].
  destruct (ext =? ".json"); [reflexivity|].
  destruct (ext =? ".html"); [reflexivity|].
  destruct (ext =? ".htm"); reflexivity.
Qed.

(** ** Computations that add only events of one kind *)

Section AddsOnly.

Variable P : event -> bool.

Lemma adds_only_ret {A} (a : A) : adds_only P (ret a).
Proof. intros h. constructor. Qed.

Lemma adds_only_sys_exit {A} c : adds_only P (@sys_exit A c).
Proof. intros h. constructor. Qed.

Lemma adds_only_raise {A} x : adds_only P (@raise A x).
Proof. intros h. constructor. Qed.

Lemma adds_only_bind {A B} (m : M A) (f : A -> M B) :
  adds_only P m -> (forall a, adds_only P (f a)) -> adds_only P (bind m f).
Proof.
  intros Hm Hf h. specialize (Hm h). unfold bind.
  destruct (m h) as [es [a|c|x]]; simpl in *; try assumption.
  specialize (Hf a (h ++ prompts_of es)%list).
  destruct (f a (h ++ prompts_of es)%list) as [es' r]; simpl in *.
  apply Forall_app; split; assumption.
Qed.

Hypothesis P_print : forall line, P (Print line) = true.

Lemma adds_only_print line : adds_only P (print line).
Proof. intros h. simpl. repeat constructor. apply P_print. Qed.

Lemma adds_only_when b line : adds_only P (when b (print line)).
Proof. destruct b; [apply adds_only_print | apply adds_only_ret]. Qed.

Lemma adds_only_or_report a what src : adds_only P (or_report a what src).
Proof.
  destruct a; simpl; [apply adds_only_ret|].
  apply adds_only_bind; [apply adds_only_print | intros; apply adds_only_ret].
Qed.

Lemma adds_only_extract_text_from_text_file w src :
  adds_only P (extract_text_from_text_file w src).
Proof.
  unfold extract_text_from_text_file.
  destruct (read_utf8 w src); [apply adds_only_ret | |]; apply adds_only_or_report.
Qed.

Lemma adds_only_process_input w src : adds_only P (process_input w src).
Proof.
  unfold process_input.
  repeat match goal with
         | |- adds_only P (if ?c then _ else _) => destruct c
         | |- adds_only P (bind _ _) => apply adds_only_bind; [|intros ?]
         | |- _ => first [ apply adds_only_print | apply adds_only_ret
                         | apply adds_only_or_report
                         | apply adds_only_extract_text_from_text_file ]
         end.
Qed.

Lemma adds_only_collect w args sources acc : adds_only P (collect w args sources acc).
Proof.
  revert acc. induction sources as [|src rest IH]; intros acc; simpl.
  - apply adds_only_ret.
  - apply adds_only_bind; [apply adds_only_process_input|].
    intros [text|]; [|apply IH].
    destruct (truthy text); [|apply IH].
    apply adds_only_bind; [apply adds_only_when | intros; apply IH].
Qed.

Hypothesis P_completion : forall p r, P (Completion p r) = true.

Lemma adds_only_process_with_llm w content q : adds_only P (process_with_llm w content q).
Proof.
  unfold process_with_llm. apply adds_only_bind.
  - intros h. simpl. repeat constructor. apply P_completion.
  - intros [text|e]; [apply adds_only_ret|].
    apply adds_only_bind; [apply adds_only_print | intros; apply adds_only_sys_exit].
Qed.

Lemma adds_only_map_chunks w args total i chunks acc :
  adds_only P (map_chunks w args total i chunks acc).
Proof.
  revert i acc. induction chunks as [|c rest IH]; intros i acc; simpl.
  - apply adds_only_ret.
  - apply adds_only_bind; [apply adds_only_when|]. intros _.
    apply adds_only_bind; [apply adds_only_process_with_llm|]. intros r. apply IH.
Qed.

Lemma adds_only_chunk_and_reduce w args corpus : adds_only P (chunk_and_reduce w args corpus).
Proof.
  unfold chunk_and_reduce.
  apply adds_only_bind; [apply adds_only_when|]. intros _.
  apply adds_only_bind; [apply adds_only_when|]. intros _.
  apply adds_only_bind; [apply adds_only_map_chunks|]. intros results.
  destruct (1 <? List.length results)%nat.
  - apply adds_only_bind; [apply adds_only_when|]. intros _.
    destruct (all_texts results);
      [apply adds_only_process_with_llm | apply adds_only_raise].
  - destruct results; [apply adds_only_raise | apply adds_only_ret].
Qed.

Lemma adds_only_process w args all_content : adds_only P (process w args all_content).
Proof.
  unfold process.
  destruct (4000 <? _)%nat;
    [apply adds_only_chunk_and_reduce | apply adds_only_process_with_llm].
Qed.

Lemma adds_only_pipeline w args : adds_only P (pipeline w args).
Proof.
  unfold pipeline. apply adds_only_bind; [apply adds_only_collect|].
  intros [|c cs]; [|apply adds_only_process].
  apply adds_only_bind; [apply adds_only_print | intros; apply adds_only_sys_exit].
Qed.

End AddsOnly.

(** ** The loop over the inputs *)

Lemma Forall_print_prompts es :
  Forall (fun e => is_print e = true) es -> prompts_of es = [].
Proof.
  induction 1 as [|e es He _ IH]; [reflexivity|].
  destruct e; try discriminate. assumption.
Qed.

Lemma steady_ret {A} (a : A) : steady (ret a).
Proof. exists [], a. split; reflexivity. Qed.

Lemma steady_print line : steady (print line).
Proof. exists [Print line], tt. split; reflexivity. Qed.

Lemma steady_when b line : steady (when b (print line)).
Proof. destruct b; [apply steady_print | apply steady_ret]. Qed.

Lemma steady_bind {A B} (m : M A) (f : A -> M B) :
  steady m -> (forall a, steady (f a)) -> steady (bind m f).
Proof.
  intros (es & a & Hp & Hm) Hf. destruct (Hf a) as (es' & b & Hp' & Hfa).
  exists (es ++ es')%list, b. split.
  - rewrite prompts_of_app, Hp, Hp'. reflexivity.
  - intros h. rewrite (bind_run m f h es a (Hm h)), Hfa. reflexivity.
Qed.

Lemma steady_or_report a what src : steady (or_report a what src).
Proof.
  destruct a; simpl; [apply steady_ret|].
  apply steady_bind; [apply steady_print | intros; apply steady_ret].
Qed.

Lemma steady_extract_text_from_text_file w src :
  steady (extract_text_from_text_file w src).
Proof.
  unfold extract_text_from_text_file.
  destruct (read_utf8 w src); [apply steady_ret | |]; apply steady_or_report.
Qed.

Lemma steady_process_input w src : steady (process_input w src).
Proof.
  unfold process_input.
  repeat match goal with
         | |- steady (if ?c then _ else _) => destruct c
         | |- steady (bind _ _) => apply steady_bind; [|intros ?]
         | |- _ => first [ apply steady_print | apply steady_ret
                         | apply steady_or_report
                         | apply steady_extract_text_from_text_file ]
         end.
Qed.

(** [process_input] always hands back a text or [None]; its run does not
    depend on what was sent to the backend, and it sends nothing. *)
Lemma process_input_run w src h :
  process_input w src h = (events (process_input w src), Ret (extracted w src)).
Proof.
  destruct (steady_process_input w src) as (es & o & _ & E).
  unfold events, extracted, result. rewrite !E. reflexivity.
Qed.

Lemma process_input_no_prompts w src :
  prompts_of (events (process_input w src)) = [].
Proof.
  destruct (steady_process_input w src) as (es & o & Hp & E).
  unfold events. rewrite E. exact Hp.
Qed.

Lemma collect_run w args sources : forall acc h,
  collect w args sources acc h
  = (flat_map (input_log w args) sources,
     Ret (acc ++ contents_of w sources)%list).
Proof.
  induction sources as [|src rest IH]; intros acc h.
  - simpl. rewrite app_nil_r. reflexivity.
  - cbn [collect flat_map contents_of].
    rewrite (bind_run _ _ h _ _ (process_input_run w src h)).
    rewrite process_input_no_prompts, app_nil_r.
    unfold input_log at 1.
    destruct (extracted w src) as [text|].
    + destruct (truthy text) eqn:T; cbn [andb].
      * rewrite bind_when_run, IH. cbn [fst snd].
        rewrite <- !app_assoc. reflexivity.
      * rewrite IH. cbn [fst snd]. rewrite app_nil_r. reflexivity.
    + rewrite IH. cbn [fst snd]. rewrite app_nil_r. reflexivity.
Qed.

Lemma collect_log_prints w args sources :
  Forall (fun e => is_print e = true) (flat_map (input_log w args) sources).
Proof.
  pose proof (adds_only_collect is_print (fun _ => eq_refl) w args sources [] [])
    as H.
  rewrite collect_run in H. exact H.
Qed.

Lemma pipeline_run w args h :
  pipeline w args h
  = match contents_of w (inputs args) with
    | [] =>
        ((flat_map (input_log w args) (inputs args)
          ++ [Print no_content_message])%list, SysExit 1)
    | c :: cs =>
        ((flat_map (input_log w args) (inputs args)
          ++ fst (process w args (c :: cs) h))%list,
         snd (process w args (c :: cs) h))
    end.
Proof.
  unfold pipeline.
  rewrite (bind_run _ _ h _ _ (collect_run w args (inputs args) [] h)).
  rewrite (Forall_print_prompts _ (collect_log_prints w args (inputs args))).
  rewrite app_nil_r. cbn [app].
  destruct (contents_of w (inputs args)); reflexivity.
Qed.

Lemma emit_run w args final_result h :
  emit w args final_result h = (events (emit w args final_result), Ret tt).
Proof.
  unfold events, emit.
  destruct (truthy_opt (output args)); [|reflexivity].
  destruct (output args) as [path|]; [|reflexivity].
  unfold bind, open_and_write.
  destruct (write_error w path final_result); reflexivity.
Qed.

Lemma main_run w args h :
  main w args h
  = match pipeline w args h with
    | (es, Ret final_result) =>
        ((es ++ events (emit w args final_result))%list, Ret tt)
    | (es, SysExit c) => (es, SysExit c)
    | (es, Uncaught x) => (es, Uncaught x)
    end.
Proof.
  unfold main, bind. destruct (pipeline w args h) as [es [fr|c|x]]; try reflexivity.
  rewrite emit_run. reflexivity.
Qed.

(** ** Failing fast *)

Lemma fail_fast_quiet {A} (es : list event) (r : outcome A) :
  Forall (fun e => is_failed_completion e = false) es ->
  (forall c, r <> SysExit c) ->
  fail_fast (es, r).
Proof. intros H1 H2. left. split; assumption. Qed.

Lemma fails_fast_ret {A} (a : A) : fails_fast (ret a).
Proof. intros h. apply fail_fast_quiet; [constructor | discriminate]. Qed.

Lemma fails_fast_raise {A} x : fails_fast (@raise A x).
Proof. intros h. apply fail_fast_quiet; [constructor | discriminate]. Qed.

Lemma fails_fast_print line : fails_fast (print line).
Proof.
  intros h. apply fail_fast_quiet; [repeat constructor | discriminate].
Qed.

Lemma fails_fast_when b line : fails_fast (when b (print line)).
Proof. destruct b; [apply fails_fast_print | apply fails_fast_ret]. Qed.

Lemma fails_fast_bind {A B} (m : M A) (f : A -> M B) :
  fails_fast m -> (forall a, fails_fast (f a)) -> fails_fast (bind m f).
Proof.
  intros Hm Hf h. specialize (Hm h).
  destruct (m h) as [es r] eqn:Em.
  destruct Hm as [[Hnf Hne] | (before & p & e & E & Hb & Hx)]; simpl in *.
  - destruct r as [a|c|x].
    + rewrite (bind_run m f h es a Em).
      specialize (Hf a (h ++ prompts_of es)%list).
      destruct (f a (h ++ prompts_of es)%list) as [es' r'].
      destruct Hf as [[Hnf' Hne'] | (before' & p' & e' & E' & Hb' & Hx')];
        simpl in *.
      * left. split; [apply Forall_app; split|]; assumption.
      * right. exists (es ++ before')%list, p', e'. simpl.
        rewrite E', app_assoc. repeat split; try assumption.
        apply Forall_app; split; assumption.
    + exfalso. exact (Hne c eq_refl).
    + rewrite (bind_uncaught m f h es x Em). left. split; [assumption|].
      simpl. discriminate.
  - subst r es. rewrite (bind_exit m f h _ 1%Z Em). right.
    exists before, p, e. repeat split; assumption.
Qed.

Lemma fails_fast_process_with_llm w content q :
  fails_fast (process_with_llm w content q).
Proof.
  intros h. unfold process_with_llm, bind, chat_completions_create.
  destruct (create w h (make_prompt content q)) as [text|e]; simpl.
  - left. split; [repeat constructor | discriminate].
  - right. exists [], (make_prompt content q), e. repeat split. constructor.
Qed.

Lemma fails_fast_map_chunks w args total chunks : forall i acc,
  fails_fast (map_chunks w args total i chunks acc).
Proof.
  induction chunks as [|c rest IH]; intros i acc; simpl.
  - apply fails_fast_ret.
  - apply fails_fast_bind; [apply fails_fast_when|]. intros _.
    apply fails_fast_bind; [apply fails_fast_process_with_llm|].
    intros r. apply IH.
Qed.

Lemma fails_fast_chunk_and_reduce w args corpus :
  fails_fast (chunk_and_reduce w args corpus).
Proof.
  unfold chunk_and_reduce.
  apply fails_fast_bind; [apply fails_fast_when|]. intros _.
  apply fails_fast_bind; [apply fails_fast_when|]. intros _.
  apply fails_fast_bind; [apply fails_fast_map_chunks|]. intros results.
  destruct (1 <? List.length results)%nat.
  - apply fails_fast_bind; [apply fails_fast_when|]. intros _.
    destruct (all_texts results);
      [apply fails_fast_process_with_llm | apply fails_fast_raise].
  - destruct results; [apply fails_fast_raise | apply fails_fast_ret].
Qed.

Lemma fails_fast_process w args all_content :
  fails_fast (process w args all_content).
Proof.
  unfold process.
  destruct (4000 <? _)%nat;
    [apply fails_fast_chunk_and_reduce | apply fails_fast_process_with_llm].
Qed.

(** ** What reaches the corpus *)

Lemma truthy_true_iff s : truthy s = true <-> s <> "".
Proof.
  unfold truthy. destruct (String.eqb_spec s ""); simpl; split; intros H;
    congruence.
Qed.

Lemma contents_of_In w sources text :
  In text (contents_of w sources)
  <-> text <> "" /\ exists src, In src sources /\ extracted w src = Some text.
Proof.
  induction sources as [|src rest IH]; simpl.
  - split; [intros [] | intros (_ & s & [] & _)].
  - destruct (extracted w src) as [t|] eqn:E.
    + destruct (truthy t) eqn:T.
      * simpl. rewrite IH. split.
        -- intros [->|(Hne & s & Hin & Hs)].
           ++ split; [apply truthy_true_iff, T | exists src; auto].
           ++ split; [assumption | exists s; auto].
        -- intros (Hne & s & [->|Hin] & Hs).
           ++ left. congruence.
           ++ right. split; [assumption | exists s; auto].
      * rewrite IH. split.
        -- intros (Hne & s & Hin & Hs). split; [assumption | exists s; auto].
        -- intros (Hne & s & [->|Hin] & Hs).
           ++ exfalso. assert (t = text) by congruence. subst t.
              apply truthy_true_iff in Hne. congruence.
           ++ split; [assumption | exists s; auto].
    + rewrite IH. split.
      * intros (Hne & s & Hin & Hs). split; [assumption | exists s; auto].
      * intros (Hne & s & [->|Hin] & Hs); [congruence|].
        split; [assumption | exists s; auto].
Qed.

Lemma contents_of_nil_iff w sources :
  contents_of w sources = []
  <-> forall src, In src sources -> yields_content w src = false.
Proof.
  unfold yields_content, truthy_opt.
  induction sources as [|src rest IH]; simpl.
  - split; [intros _ s [] | reflexivity].
  - destruct (extracted w src) as [t|] eqn:E.
    + destruct (truthy t) eqn:T.
      * split; [discriminate|]. intros H. specialize (H src (or_introl eq_refl)).
        rewrite E in H. congruence.
      * rewrite IH. split.
        -- intros H s [->|Hin]; [rewrite E; exact T | apply H, Hin].
        -- intros H s Hin. apply H. right. exact Hin.
    + rewrite IH. split.
      * intros H s [->|Hin]; [rewrite E; reflexivity | apply H, Hin].
      * intros H s Hin. apply H. right. exact Hin.
Qed.

Lemma or_report_logged a what src h :
  text_of (snd (or_report a what src h)) = None ->
  logged_error src (fst (or_report a what src h)).
Proof.
  destruct a as [text|e]; [discriminate|]. intros _.
  exists (" extracting text from " ++ what), (": " ++ e).
  left. simpl. reflexivity.
Qed.

Lemma logged_error_later src line es :
  logged_error src es -> logged_error src (Print line :: es).
Proof. intros (x & y & H). exists x, y. right. exact H. Qed.

Lemma logged_error_app src a b :
  logged_error src a \/ logged_error src b -> logged_error src (a ++ b).
Proof.
  intros [(x & y & H)|(x & y & H)]; exists x, y; apply in_or_app; auto.
Qed.

Lemma text_file_logged w src h :
  text_of (snd (extract_text_from_text_file w src h)) = None ->
  logged_error src (fst (extract_text_from_text_file w src h)).
Proof.
  unfold extract_text_from_text_file.
  destruct (read_utf8 w src); [discriminate | |]; apply or_report_logged.
Qed.

(** Every input that yields [None] leaves an error line that names it. *)
Lemma process_input_logged w src :
  extracted w src = None -> logged_error src (events (process_input w src)).
Proof.
  change (extracted w src) with (text_of (snd (process_input w src []))).
  unfold events, process_input.
  repeat match goal with
         | |- context [if ?c then _ else _] => destruct c
         end;
    rewrite ?bind_print_run; cbn [fst snd]; intros R.
  all: try solve [ exists ": File not found: ", ""; left; simpl;
                   rewrite append_nil_r; reflexivity ].
  all: repeat apply logged_error_later.
  all: first [ apply or_report_logged | apply text_file_logged ]; exact R.
Qed.

Lemma last_two {A} (l : list A) (a b d : A) : last (l ++ [a; b]) d = b.
Proof.
  change (l ++ [a; b])%list with (l ++ [a] ++ [b])%list.
  rewrite app_assoc. apply last_last.
Qed.

Lemma api_error_is_not_no_content e :
  api_error_line e <> Print no_content_message.
Proof. unfold api_error_line, no_content_message. simpl. discriminate. Qed.

Lemma main_run_no_content w args h :
  contents_of w (inputs args) = [] ->
  main w args h
  = ((flat_map (input_log w args) (inputs args)
      ++ [Print no_content_message])%list, SysExit 1).
Proof. intros C. rewrite main_run, pipeline_run, C. reflexivity. Qed.

Lemma main_aborts_no_content_iff w args :
  aborts_no_content (main w args [])
  <-> contents_of w (inputs args) = [].
Proof.
  split.
  - intros [Hr Hl]. rewrite main_run, pipeline_run in Hr, Hl.
    destruct (contents_of w (inputs args)) as [|c cs]; [reflexivity|].
    exfalso. pose proof (fails_fast_process w args (c :: cs) []) as FF.
    destruct (process w args (c :: cs) []) as [es r].
    destruct FF as [[_ Hne] | (before & p & e & E & _ & Hx)]; simpl in *.
    + destruct r as [fr|code|x]; try discriminate.
      exact (Hne code eq_refl).
    + subst r es. simpl in Hl. rewrite app_assoc, last_two in Hl.
      exact (api_error_is_not_no_content e Hl).
  - intros C. rewrite (main_run_no_content w args [] C). split; [reflexivity|].
    simpl. apply last_last.
Qed.

(** ** C6: failed extractions *)

(** C6. The loop over the inputs visits every input in the order given
    and never stops early: its events are the events of the inputs one
    after the other, and it hands on the texts of the inputs that yielded
    content.  An input whose extraction failed leaves an error line that
    names it.  The run ends in the fatal exit, status 1 after the "no
    content" line, exactly when no input yielded content. *)
Theorem failed_inputs_skipped_and_abort_iff_none_yields :
  forall (w : World) (args : Args),
    collect w args (inputs args) [] []
    = (flat_map (input_log w args) (inputs args),
       Ret (contents_of w (inputs args)))
    /\ (forall src, In src (inputs args) -> extracted w src = None ->
        logged_error src (input_log w args src)
        /\ contents_of w [src] = [])
    /\ (aborts_no_content (main w args [])
        <-> forall src, In src (inputs args) -> yields_content w src = false).
Proof.
  intros w args. split; [|split].
  - apply collect_run.
  - intros src _ E. split.
    + unfold input_log. apply logged_error_app. left.
      apply process_input_logged, E.
    + simpl. rewrite E. reflexivity.
  - rewrite main_aborts_no_content_iff. apply contents_of_nil_iff.
Qed.

(** ** C10: an empty text is no content *)

(** C10. Only the non-empty texts reach the corpus: the loop hands on, in
    input order, the texts that some input yielded and that are not the
    empty string.  When every input yields either nothing or the empty
    string, the run prints the "no content" line and exits with status 1,
    also when no extractor failed. *)
Theorem empty_text_is_treated_as_failure :
  forall (w : World) (args : Args),
    result (collect w args (inputs args) []) = Ret (contents_of w (inputs args))
    /\ (forall text, In text (contents_of w (inputs args))
        <-> text <> ""
            /\ exists src, In src (inputs args) /\ extracted w src = Some text)
    /\ ((forall src, In src (inputs args) ->
           extracted w src = None \/ extracted w src = Some "") ->
        main w args []
        = ((flat_map (input_log w args) (inputs args)
            ++ [Print no_content_message])%list, SysExit 1)).
Proof.
  intros w args. split; [|split].
  - unfold result. rewrite collect_run. reflexivity.
  - intros text. apply contents_of_In.
  - intros H. apply main_run_no_content. apply contents_of_nil_iff.
    intros src Hin. unfold yields_content.
    destruct (H src Hin) as [E|E]; rewrite E; reflexivity.
Qed.

(** ** Where an event of a kind can sit *)

Lemma split_at_first (P : event -> bool) l1 x r1 : forall l2 y r2,
  Forall (fun e => P e = false) l1 ->
  Forall (fun e => P e = false) r1 ->
  P y = true ->
  (l1 ++ x :: r1 = l2 ++ y :: r2)%list ->
  l2 = l1 /\ y = x /\ r2 = r1.
Proof.
  induction l1 as [|a l1 IH]; intros l2 y r2 H1 Hr Hy E.
  - destruct l2 as [|z l2]; simpl in E.
    + injection E as -> ->. auto.
    + injection E as -> ->. exfalso.
      apply Forall_app in Hr as [_ Hr]. inversion Hr; subst. congruence.
  - inversion H1; subst. destruct l2 as [|z l2]; simpl in E.
    + injection E as -> _. congruence.
    + injection E as -> E. destruct (IH l2 y r2) as (-> & -> & ->); auto.
Qed.

Lemma none_of_kind (P : event -> bool) l before y after :
  Forall (fun e => P e = false) l ->
  l = (before ++ y :: after)%list -> P y = true -> False.
Proof.
  intros H -> Hy. apply Forall_app in H as [_ H]. inversion H; subst.
  congruence.
Qed.

Lemma Forall_negb (P : event -> bool) l :
  Forall (fun e => negb (P e) = true) l -> Forall (fun e => P e = false) l.
Proof.
  apply Forall_impl. intros e H. apply negb_true_iff in H. exact H.
Qed.

Lemma prints_not_failed l :
  Forall (fun e => is_print e = true) l ->
  Forall (fun e => is_failed_completion e = false) l.
Proof. apply Forall_impl. intros [line|p r|a b c]; simpl; congruence. Qed.

Lemma emit_events_cases w args final_result :
  events (emit w args final_result)
  = match output args with
    | Some path =>
        if truthy path then
          match write_error w path final_result with
          | Some e =>
              [Write path final_result (Some e);
               Print ("Error writing to output file: " ++ e);
               Print (str_of_value final_result)]
          | None =>
              [Write path final_result None;
               Print ("Output written to " ++ path)]
          end
        else map Print (framed_block (str_of_value final_result))
    | None => map Print (framed_block (str_of_value final_result))
    end.
Proof.
  unfold events, emit, truthy_opt.
  destruct (output args) as [path|]; [|reflexivity].
  destruct (truthy path); [|reflexivity].
  unfold bind, open_and_write.
  destruct (write_error w path final_result); reflexivity.
Qed.

Lemma emit_not_failed w args final_result :
  Forall (fun e => is_failed_completion e = false)
    (events (emit w args final_result)).
Proof.
  rewrite emit_events_cases.
  destruct (output args) as [path|]; [destruct (truthy path)|];
    [destruct (write_error w path final_result)| |]; repeat constructor.
Qed.

(** ** C7: a backend error *)

(** C7. Wherever a completion request fails in a run of the program, the
    run reports the error in the next line and stops there with exit
    status 1: nothing follows the report (no second attempt, no further
    request, no output), and no request had failed before. *)
Theorem backend_error_is_fatal :
  forall (w : World) (args : Args) before p e after,
    events (main w args) = (before ++ Completion p (Raised e) :: after)%list ->
    after = [Print ("Error calling OpenAI API: " ++ e)]
    /\ result (main w args) = SysExit 1
    /\ Forall (fun ev => is_failed_completion ev = false) before.
Proof.
  intros w args before p e after. unfold events, result.
  rewrite main_run, pipeline_run.
  pose proof (prints_not_failed _ (collect_log_prints w args (inputs args)))
    as Hlog.
  destruct (contents_of w (inputs args)) as [|c cs].
  - simpl. intros E. exfalso.
    refine (none_of_kind is_failed_completion _ _ _ _ _ E eq_refl).
    apply Forall_app. split; [exact Hlog | repeat constructor].
  - pose proof (fails_fast_process w args (c :: cs) []) as FF.
    destruct (process w args (c :: cs) []) as [es r].
    destruct FF as [[Hnf Hne] | (before' & p' & e' & E' & Hb & Hx)];
      simpl in *.
    + intros E. exfalso.
      refine (none_of_kind is_failed_completion _ _ _ _ _ E eq_refl).
      destruct r as [fr|code|x]; simpl.
      * repeat (apply Forall_app; split); auto using emit_not_failed.
      * apply Forall_app; split; assumption.
      * apply Forall_app; split; assumption.
    + subst r es. simpl. rewrite app_assoc. intros E.
      assert (Hone : Forall (fun ev => is_failed_completion ev = false)
                       [api_error_line e']) by (repeat constructor).
      destruct (split_at_first is_failed_completion _ _ _
                  before (Completion p (Raised e)) after
                  (proj2 (Forall_app _ _ _) (conj Hlog Hb)) Hone eq_refl E)
        as (-> & Hy & ->).
      injection Hy as -> ->. repeat split.
      apply Forall_app; split; assumption.
Qed.

(** ** C2: the output file cannot be written *)

Lemma pipeline_no_write w args h :
  Forall (fun e => is_write e = false) (fst (pipeline w args h)).
Proof.
  apply Forall_negb.
  exact (adds_only_pipeline (fun e => negb (is_write e))
           (fun _ => eq_refl) (fun _ _ => eq_refl) w args h).
Qed.

(** C2, as amended. Wherever the write of the output file fails in a run
    of the program, the run does not exit: it ends normally, and after the
    failed write it prints the error line and then the final result, the
    result the pipeline computed, as it is, without separator lines. *)
Theorem write_failure_prints_result_unframed :
  forall (w : World) (args : Args) before path content e after,
    events (main w args) = (before ++ Write path content (Some e) :: after)%list ->
    result (main w args) = Ret tt
    /\ after = [Print ("Error writing to output file: " ++ e);
                Print (str_of_value content)]
    /\ result (pipeline w args) = Ret content
    /\ output args = Some path
    /\ ~ framed_in (str_of_value content)
           (console (Write path content (Some e) :: after)).
Proof.
  intros w args before path content e after. unfold events, result.
  rewrite main_run. pose proof (pipeline_no_write w args []) as Hp.
  destruct (pipeline w args []) as [es r]. simpl in Hp.
  destruct r as [fr|code|x]; simpl;
    [|intros E; exfalso; exact (none_of_kind is_write _ _ _ _ Hp E eq_refl)..].
  rewrite emit_events_cases.
  assert (Hframe : forall l, Forall (fun ev => is_write ev = false)
                               (es ++ map Print l)%list).
  { intros l. apply Forall_app. split; [assumption|].
    induction l; simpl; constructor; auto. }
  destruct (output args) as [path'|];
    [destruct (truthy path')|];
    [|intros E; exfalso;
      exact (none_of_kind is_write _ _ _ _ (Hframe _) E eq_refl)..].
  destruct (write_error w path' fr) as [e'|]; intros E.
  - apply split_at_first with (P := is_write) in E;
      [|assumption | repeat constructor | reflexivity].
    destruct E as (-> & Hy & ->).
    injection Hy as -> -> ->. repeat split.
    intros (above & below & F). apply (f_equal (@List.length string)) in F.
    rewrite !length_app in F. simpl in F. lia.
  - apply split_at_first with (P := is_write) in E;
      [|assumption | repeat constructor | reflexivity].
    destruct E as (_ & Hy & _). discriminate Hy.
Qed.

(** ** The requests of the two branches *)

Lemma process_with_llm_run w content q h :
  process_with_llm w content q h
  = match create w h (make_prompt content q) with
    | Returned text =>
        ([Completion (make_prompt content q) (Returned text)], Ret text)
    | Raised e =>
        ([Completion (make_prompt content q) (Raised e); api_error_line e],
         SysExit 1)
    end.
Proof.
  unfold process_with_llm, bind, chat_completions_create.
  destruct (create w h (make_prompt content q)); reflexivity.
Qed.

Lemma map_fst_combine {A B} (a : list A) : forall (b : list B),
  List.length a = List.length b -> map fst (combine a b) = a.
Proof.
  induction a as [|x a IH]; intros [|y b] H; simpl in *; try discriminate;
    [reflexivity|]. rewrite IH; [reflexivity | lia].
Qed.

Lemma answers_length w prompts : forall h,
  List.length (answers w h prompts) = List.length prompts.
Proof.
  induction prompts as [|p rest IH]; intros h; simpl; [reflexivity|].
  rewrite IH. reflexivity.
Qed.

Lemma map_chunks_run w args total chunks : forall i acc h results,
  answers w h (map (fun c => make_prompt c (query args)) chunks)
  = map Returned results ->
  exists es,
    map_chunks w args total i chunks acc h = (es, Ret (acc ++ results)%list)
    /\ completions es
       = combine (map (fun c => make_prompt c (query args)) chunks)
           (map Returned results).
Proof.
  induction chunks as [|c rest IH]; intros i acc h results E.
  - destruct results; [|discriminate]. exists []. simpl.
    rewrite app_nil_r. split; reflexivity.
  - destruct results as [|r rs]; [discriminate|]. simpl in E.
    injection E as Ec Er.
    destruct (IH (S i) (acc ++ [r])%list
                (h ++ [make_prompt c (query args)])%list rs Er)
      as (es & Erun & Ecomp).
    eexists. cbn [map_chunks]. rewrite bind_when_run.
    erewrite bind_run by (rewrite process_with_llm_run, Ec; reflexivity).
    cbn [prompts_of]. rewrite Erun. cbn [fst snd].
    rewrite <- app_assoc. split; [reflexivity|].
    rewrite !completions_app, Ecomp.
    destruct (verbose args); reflexivity.
Qed.

Lemma all_texts_map_Some (texts : list string) :
  all_texts (map Some texts) = Some texts.
Proof.
  induction texts as [|t r IH]; [reflexivity|]. simpl. rewrite IH.
  reflexivity.
Qed.

Lemma chunk_and_reduce_run w args corpus h
  (results : list (option string)) :
  let prompts := map (fun c => make_prompt c (query args))
                   (split_text_into_chunks w corpus 2000 200) in
  let mapped := combine prompts (map Returned results) in
  answers w h prompts = map Returned results ->
  if (1 <? List.length results)%nat then
    match all_texts results with
    | Some texts =>
        let reduce_prompt :=
          make_prompt (join (nl ++ nl) texts) (Some reduce_directive) in
        let reduced := create w (h ++ prompts) reduce_prompt in
        completions (fst (chunk_and_reduce w args corpus h))
        = (mapped ++ [(reduce_prompt, reduced)])%list
        /\ snd (chunk_and_reduce w args corpus h)
           = match reduced with
             | Returned final => Ret final
             | Raised _ => SysExit 1
             end
    | None =>
        completions (fst (chunk_and_reduce w args corpus h)) = mapped
        /\ snd (chunk_and_reduce w args corpus h) = Uncaught "TypeError"
    end
  else
    completions (fst (chunk_and_reduce w args corpus h)) = mapped
    /\ snd (chunk_and_reduce w args corpus h)
       = match results with
         | r :: _ => Ret r
         | [] => Uncaught "IndexError"
         end.
Proof.
  intros prompts mapped E.
  destruct (map_chunks_run w args
              (List.length (split_text_into_chunks w corpus 2000 200))
              (split_text_into_chunks w corpus 2000 200) 0 [] h results E)
    as (es & Erun & Ecomp).
  fold prompts in Ecomp. fold mapped in Ecomp.
  assert (Hp : prompts_of es = prompts).
  { rewrite prompts_of_completions, Ecomp. apply map_fst_combine.
    rewrite <- E, answers_length. reflexivity. }
  unfold chunk_and_reduce. rewrite !bind_when_run.
  rewrite (bind_run _ _ h es results Erun). cbn [fst snd app].
  rewrite !completions_app, Ecomp, Hp.
  assert (Hw : forall b l, completions (if b : bool then [Print l] else []) = []).
  { intros [] l; reflexivity. }
  rewrite !Hw. cbn [app].
  destruct (1 <? List.length results)%nat.
  - rewrite bind_when_run. destruct (all_texts results) as [texts|].
    + rewrite process_with_llm_run. cbn [fst snd].
      rewrite !completions_app, Hw. cbn [app].
      destruct (create w (h ++ prompts) _); split; reflexivity.
    + cbn [fst snd raise]. rewrite !completions_app, Hw.
      split; [rewrite app_nil_r; reflexivity | reflexivity].
  - destruct results; split; simpl; try rewrite app_nil_r; reflexivity.
Qed.

Lemma process_branch w args all_content h :
  process w args all_content h
  = if (String.length (combined_content all_content) <=? 4000)%nat
    then process_with_llm w (combined_content all_content) (query args) h
    else chunk_and_reduce w args (combined_content all_content) h.
Proof.
  unfold process. rewrite Nat.ltb_antisym.
  destruct (String.length (combined_content all_content) <=? 4000)%nat;
    reflexivity.
Qed.

(** ** C3: the size decision *)

(** C3, as amended. A corpus of at most 4000 characters is not chunked:
    exactly one completion request is sent, for the whole corpus with the
    query of the user (or the default instruction), and its answer is the
    final result (a failed request ends the run).  A corpus of more than
    4000 characters takes the chunking branch.  A corpus of exactly 4000
    characters is therefore sent whole. *)
Theorem size_decision_chunks_over_4000 :
  forall (w : World) (args : Args) (all_content : list string)
         (h : list string),
    let corpus := combined_content all_content in
    let prompt := make_prompt corpus (query args) in
    ((String.length corpus <= 4000)%nat ->
       process w args all_content h = process_with_llm w corpus (query args) h
       /\ completions (fst (process w args all_content h))
          = [(prompt, create w h prompt)]
       /\ snd (process w args all_content h)
          = match create w h prompt with
            | Returned final => Ret final
            | Raised _ => SysExit 1
            end)
    /\ ((4000 < String.length corpus)%nat ->
        process w args all_content h = chunk_and_reduce w args corpus h).
Proof.
  intros w args all_content h corpus prompt. rewrite process_branch.
  fold corpus. split; intros H.
  - apply Nat.leb_le in H. rewrite H. split; [reflexivity|].
    rewrite process_with_llm_run. fold prompt.
    destruct (create w h prompt); split; reflexivity.
  - apply Nat.leb_gt in H. rewrite H. reflexivity.
Qed.

(** ** C4: map and reduce *)

Lemma make_prompt_as_specified content q :
  make_prompt content q = prompt_as_specified q content.
Proof.
  unfold make_prompt, prompt_as_specified, truthy_opt, truthy.
  destruct q as [s|]; [|reflexivity]. destruct (s =? ""); reflexivity.
Qed.

(** C4, as amended. On the chunking branch, when the backend answers the
    request of every chunk with a text: the requests of the run are one
    per chunk, in the order of the chunks, each made of the query of the
    user (or of the default instruction) and of the chunk.  With exactly
    one chunk result there is no other request and that result is the
    final result.  With more than one there is exactly one more request,
    made of the fixed directive and of the chunk results joined by blank
    lines, and its answer is the final result. *)
Theorem chunking_branch_maps_then_reduces :
  forall (w : World) (args : Args) (all_content : list string)
         (h : list string) (results : list string),
    let corpus := combined_content all_content in
    let chunks := split_text_into_chunks w corpus 2000 200 in
    let prompts := map (prompt_as_specified (query args)) chunks in
    let mapped :=
      combine prompts (map (fun r => Returned (Some r)) results) in
    let reduce_prompt :=
      reduce_directive ++ nl ++ nl ++ "Content:" ++ nl
      ++ join (nl ++ nl) results in
    let reduced := create w (h ++ prompts) reduce_prompt in
    let run := process w args all_content h in
    (4000 < String.length corpus)%nat ->
    answers w h prompts = map (fun r => Returned (Some r)) results ->
    List.length results = List.length chunks
    /\ (forall r, results = [r] ->
        completions (fst run) = mapped /\ snd run = Ret (Some r))
    /\ ((1 < List.length results)%nat ->
        completions (fst run) = (mapped ++ [(reduce_prompt, reduced)])%list
        /\ snd run = match reduced with
                     | Returned final => Ret final
                     | Raised _ => SysExit 1
                     end).
Proof.
  intros w args all_content h results corpus chunks prompts mapped
    reduce_prompt reduced run Hlong E.
  assert (Ep : prompts = map (fun c => make_prompt c (query args)) chunks).
  { unfold prompts. apply map_ext. intros c. symmetry.
    apply make_prompt_as_specified. }
  assert (Em : map (fun r => Returned (Some r)) results
               = map Returned (map Some results))
    by (rewrite map_map; reflexivity).
  unfold mapped, reduced. rewrite Em in *. rewrite Ep in *.
  pose proof (chunk_and_reduce_run w args corpus h (map Some results) E) as R.
  rewrite length_map, all_texts_map_Some in R.
  assert (Erun : run = chunk_and_reduce w args corpus h).
  { unfold run. rewrite process_branch. fold corpus.
    apply Nat.leb_gt in Hlong. rewrite Hlong. reflexivity. }
  rewrite Erun. split; [|split].
  - apply (f_equal (@List.length (attempt (option string)))) in E.
    rewrite answers_length, !length_map in E. symmetry. exact E.
  - intros r ->. exact R.
  - intros H. apply Nat.ltb_lt in H. rewrite H in R. exact R.
Qed.

(** ** C8: the verbose flag *)

Lemma adds_prints_refl es : adds_prints es es.
Proof. induction es; constructor; assumption. Qed.

Lemma adds_prints_app q1 l1 q2 l2 :
  adds_prints q1 l1 -> adds_prints q2 l2 ->
  adds_prints (q1 ++ q2) (l1 ++ l2).
Proof.
  intros H1 H2. induction H1; simpl; try constructor; assumption.
Qed.

Lemma adds_prints_prompts q l : adds_prints q l -> prompts_of q = prompts_of l.
Proof.
  induction 1 as [|e q l _ IH|line q l _ IH]; simpl; try assumption.
  - reflexivity.
  - destruct e; simpl; rewrite IH; reflexivity.
Qed.

Lemma adds_prints_effects q l : adds_prints q l -> effects l = effects q.
Proof.
  induction 1 as [|e q l _ IH|line q l _ IH]; simpl; try assumption.
  - reflexivity.
  - destruct e; simpl; rewrite IH; reflexivity.
Qed.

Lemma only_louder_refl {A} (m : M A) : only_louder m m.
Proof. intros h. split; [reflexivity | apply adds_prints_refl]. Qed.

Lemma only_louder_bind {A B} (m m' : M A) (f f' : A -> M B) :
  only_louder m m' -> (forall a, only_louder (f a) (f' a)) ->
  only_louder (bind m f) (bind m' f').
Proof.
  intros Hm Hf h. destruct (Hm h) as [Hr Hes]. unfold bind.
  destruct (m h) as [es r], (m' h) as [es' r']. simpl in *. subst r'.
  destruct r as [a|c|x]; simpl; try (split; [reflexivity | assumption]).
  rewrite (adds_prints_prompts _ _ Hes).
  destruct (Hf a (h ++ prompts_of es')%list) as [Hr' Hes'].
  destruct (f a (h ++ prompts_of es')%list) as [fs s],
           (f' a (h ++ prompts_of es')%list) as [fs' s']. simpl in *.
  split; [assumption | apply adds_prints_app; assumption].
Qed.

Lemma only_louder_when a b line :
  verbose a = false ->
  only_louder (when (verbose a) (print line)) (when (verbose b) (print line)).
Proof.
  intros ->. destruct (verbose b); [|apply only_louder_refl].
  intros h. split; [reflexivity | repeat constructor].
Qed.

Section Quieter.

Variables (w : World) (a b : Args).
Hypothesis Hq : quieter a b.

Lemma only_louder_collect sources : forall acc,
  only_louder (collect w a sources acc) (collect w b sources acc).
Proof.
  destruct Hq as (_ & _ & _ & Hv).
  induction sources as [|src rest IH]; intros acc; simpl.
  - apply only_louder_refl.
  - apply only_louder_bind; [apply only_louder_refl|].
    intros [text|]; [|apply IH].
    destruct (truthy text); [|apply IH].
    apply only_louder_bind; [apply only_louder_when, Hv | intros; apply IH].
Qed.

Lemma only_louder_map_chunks total chunks : forall i acc,
  only_louder (map_chunks w a total i chunks acc)
              (map_chunks w b total i chunks acc).
Proof.
  destruct Hq as (_ & Hquery & _ & Hv).
  induction chunks as [|c rest IH]; intros i acc; simpl.
  - apply only_louder_refl.
  - apply only_louder_bind; [apply only_louder_when, Hv|]. intros _.
    rewrite Hquery.
    apply only_louder_bind; [apply only_louder_refl|]. intros r. apply IH.
Qed.

Lemma only_louder_process all_content :
  only_louder (process w a all_content) (process w b all_content).
Proof.
  pose proof Hq as (_ & Hquery & _ & Hv).
  unfold process. destruct (4000 <? _)%nat.
  - unfold chunk_and_reduce.
    apply only_louder_bind; [apply only_louder_when, Hv|]. intros _.
    apply only_louder_bind; [apply only_louder_when, Hv|]. intros _.
    apply only_louder_bind; [apply only_louder_map_chunks|]. intros results.
    destruct (1 <? List.length results)%nat; [|apply only_louder_refl].
    apply only_louder_bind; [apply only_louder_when, Hv|]. intros _.
    apply only_louder_refl.
  - rewrite Hquery. apply only_louder_refl.
Qed.

Lemma only_louder_pipeline : only_louder (pipeline w a) (pipeline w b).
Proof.
  pose proof Hq as (Hin & _ & _ & _).
  unfold pipeline. rewrite Hin.
  apply only_louder_bind; [apply only_louder_collect|].
  intros [|c cs]; [apply only_louder_refl | apply only_louder_process].
Qed.

Lemma only_louder_main : only_louder (main w a) (main w b).
Proof.
  pose proof Hq as (_ & _ & Hout & _).
  unfold main. apply only_louder_bind; [apply only_louder_pipeline|].
  intros fr. unfold emit. rewrite Hout. apply only_louder_refl.
Qed.

End Quieter.

(** C8. Two runs on the same inputs, query and output path, in the same
    world, one with the verbose flag and one without: the final result of
    the pipeline is the same, the run ends the same way, the run with the
    flag has the events of the other one in the same order with more
    printed lines among them, and so the completion requests and the
    file written, content included, are the same. *)
Theorem verbose_only_adds_messages :
  forall (w : World) (sources : list string) (q out : option string),
    let loud :=
      {| inputs := sources; query := q; output := out; verbose := true |} in
    let quiet :=
      {| inputs := sources; query := q; output := out; verbose := false |} in
    result (pipeline w loud) = result (pipeline w quiet)
    /\ result (main w loud) = result (main w quiet)
    /\ adds_prints (events (main w quiet)) (events (main w loud))
    /\ effects (events (main w loud)) = effects (events (main w quiet)).
Proof.
  intros w sources q out loud quiet.
  assert (Hq : quieter quiet loud) by (repeat split).
  destruct (only_louder_pipeline w quiet loud Hq []) as [Hp _].
  destruct (only_louder_main w quiet loud Hq []) as [Hm Hes].
  unfold result, events. repeat split; auto using adds_prints_effects.
Qed.

(** ** Runs of the model *)

Example splitext_last_dot_of_last_component :
  posix_splitext "a/b.c/x.tar.GZ" = ("a/b.c/x.tar", ".GZ")
  /\ posix_splitext "a/b.c/.bashrc" = ("a/b.c/.bashrc", "")
  /\ posix_splitext "dir.d/README" = ("dir.d/README", "").
Proof. repeat split. Qed.

Example routes_of_some_references :
  dispatch_rule Demo.world "Report.PDF" = Route PdfExtractor false
  /\ dispatch_rule Demo.world "https://example.com/a.pdf"
     = Route UrlExtractor false
  /\ dispatch_rule Demo.world "missing.txt" = NotFound
  /\ dispatch_rule Demo.world "page.HtM" = Route TextExtractor false
  /\ dispatch_rule Demo.world "data.xyz" = Route TextExtractor true
  /\ dispatch_rule Demo.world "HTTP://example.com" = Route TextExtractor true.
Proof. repeat split. Qed.

Example run_of_mixed_inputs :
  main Demo.world
    (Demo.args_of ["a.PDF"; "missing.txt"; "b.docx"; "latin.txt"]
       (Some "out.txt") true) []
  = ([Print "Processing file: a.PDF";
      Print "Extracted 8 characters from a.PDF";
      Print "Error: File not found: missing.txt";
      Print "Processing file: b.docx";
      Print "Processing file: latin.txt";
      Print "Extracted 10 characters from latin.txt";
      Completion
        (make_prompt
           (nl ++ nl ++ repeat_str "-" 30 ++ " DOCUMENT SEPARATOR "
            ++ repeat_str "-" 30 ++ "pdf text" ++ nl ++ nl ++ "latin text")
           None)
        (Returned (Some "answer 0"));
      Write "out.txt" (Some "answer 0") (Some "No such file or directory");
      Print "Error writing to output file: No such file or directory";
      Print "answer 0"], Ret tt).
Proof. vm_compute. reflexivity. Qed.

Example run_of_a_long_document :
  console
    (events (main Demo.world (Demo.args_of ["longer.txt"] None true)))
  = ["Processing file: longer.txt";
     "Extracted 3919 characters from longer.txt";
     "Content size (4001 chars) exceeds processing limit. Chunking content...";
     "Split content into 2 chunks";
     "Processing chunk 1/2";
     "Processing chunk 2/2";
     "Combining results from multiple chunks...";
     nl ++ repeat_str "=" 80 ++ nl;
     "answer 2";
     nl ++ repeat_str "=" 80].
Proof. vm_compute. reflexivity. Qed.

(** ** The claims on concrete runs *)

(** C2, counterexample. The output file cannot be written and the result
    is "answer 0": the console holds the error line and the bare result,
    two lines, and no separator line above or below the result. *)
Lemma fallback_is_not_framed :
  ~ fallback_as_specified Demo.world
      (Demo.args_of ["notes.txt"] (Some "missing_dir/out.txt") false)
      "answer 0".
Proof.
  intros H.
  destruct (H "missing_dir/out.txt" "No such file or directory"
              eq_refl eq_refl) as [_ (above & below & E)].
  apply (f_equal (@List.length string)) in E.
  rewrite !length_app in E.
  change (2 = List.length above + (3 + List.length below)) in E. lia.
Qed.

Lemma write_failure_prints_result_unframed_witness :
  result (main Demo.world
            (Demo.args_of ["notes.txt"] (Some "missing_dir/out.txt") false))
  = Ret tt
  /\ [Print "Error writing to output file: No such file or directory";
      Print "answer 0"]
     = [Print ("Error writing to output file: " ++ "No such file or directory");
        Print (str_of_value (Some "answer 0"))]
  /\ result (pipeline Demo.world
               (Demo.args_of ["notes.txt"] (Some "missing_dir/out.txt") false))
     = Ret (Some "answer 0")
  /\ output (Demo.args_of ["notes.txt"] (Some "missing_dir/out.txt") false)
     = Some "missing_dir/out.txt"
  /\ ~ framed_in (str_of_value (Some "answer 0"))
         (console
            [Write "missing_dir/out.txt" (Some "answer 0")
               (Some "No such file or directory");
             Print "Error writing to output file: No such file or directory";
             Print "answer 0"]).
Proof.
  apply (write_failure_prints_result_unframed Demo.world
           (Demo.args_of ["notes.txt"] (Some "missing_dir/out.txt") false)
           [Print "Processing file: notes.txt";
            Completion
              (make_prompt (combined_content ["text of notes.txt"]) None)
              (Returned (Some "answer 0"))]).
  vm_compute. reflexivity.
Defined.

(** C3, counterexample. A corpus of exactly 4000 characters, in a world
    whose splitter would cut it in two: the run sends one request, for the
    whole corpus, where the chunking branch sends three. *)
Lemma corpus_of_4000_is_not_chunked :
  String.length (combined_content [repeat_str "a" 3918]) = 4000%nat
  /\ ~ size_decision_as_specified Demo.world (Demo.args_of [] None false)
         [repeat_str "a" 3918] [].
Proof.
  split; [vm_compute; reflexivity|]. intros [_ H].
  assert (Hn : ~ (String.length (combined_content [repeat_str "a" 3918])
                  < 4000)%nat).
  { apply Nat.nlt_ge. apply Nat.leb_le. vm_compute. reflexivity. }
  specialize (H Hn).
  apply (f_equal (fun run => List.length (completions (fst run)))) in H.
  vm_compute in H. discriminate H.
Qed.

Lemma size_decision_chunks_over_4000_witness :
  (process Demo.world (Demo.args_of [] None false) [repeat_str "a" 3918] []
   = process_with_llm Demo.world (combined_content [repeat_str "a" 3918])
       None []
   /\ completions
        (fst (process Demo.world (Demo.args_of [] None false)
                [repeat_str "a" 3918] []))
      = [(make_prompt (combined_content [repeat_str "a" 3918]) None,
          Returned (Some "answer 0"))]
   /\ snd (process Demo.world (Demo.args_of [] None false)
             [repeat_str "a" 3918] [])
      = Ret (Some "answer 0"))
  /\ process Demo.world (Demo.args_of [] None false) [repeat_str "a" 3919] []
     = chunk_and_reduce Demo.world (Demo.args_of [] None false)
         (combined_content [repeat_str "a" 3919]) [].
Proof.
  split.
  - apply (proj1 (size_decision_chunks_over_4000 Demo.world
                    (Demo.args_of [] None false) [repeat_str "a" 3918] [])).
    apply Nat.leb_le. vm_compute. reflexivity.
  - apply (proj2 (size_decision_chunks_over_4000 Demo.world
                    (Demo.args_of [] None false) [repeat_str "a" 3919] [])).
    apply Nat.ltb_lt. vm_compute. reflexivity.
Defined.

(** C4, counterexample. Three chunks and a backend that fails at the
    second request: the run sends the requests of the first two chunks
    and stops, so the third chunk gets no request. *)
Lemma third_chunk_gets_no_request :
  prompts_of
    (fst (process world_three_chunks_failing_second
            (Demo.args_of [] None false) [repeat_str "a" 3919] []))
  = [prompt_as_specified None "first chunk";
     prompt_as_specified None "second chunk"]
  /\ snd (process world_three_chunks_failing_second
            (Demo.args_of [] None false) [repeat_str "a" 3919] [])
     = SysExit 1
  /\ ~ one_request_per_chunk world_three_chunks_failing_second
         (Demo.args_of [] None false) [repeat_str "a" 3919] [].
Proof.
  split; [vm_compute; reflexivity|]. split; [vm_compute; reflexivity|].
  intros H.
  assert (L : (4000 < String.length (combined_content [repeat_str "a" 3919]))%nat)
    by (apply Nat.ltb_lt; vm_compute; reflexivity).
  destruct (H L) as [rest E].
  apply (f_equal (@List.length string)) in E.
  rewrite length_app in E. vm_compute in E. lia.
Qed.

Lemma chunking_branch_maps_then_reduces_witness :
  completions
    (fst (process Demo.world (Demo.args_of [] None false)
            [repeat_str "a" 3919] []))
  = [(make_prompt "first chunk" None, Returned (Some "answer 0"));
     (make_prompt "second chunk" None, Returned (Some "answer 1"));
     (make_prompt ("answer 0" ++ nl ++ nl ++ "answer 1")
        (Some reduce_directive), Returned (Some "answer 2"))]
  /\ snd (process Demo.world (Demo.args_of [] None false)
            [repeat_str "a" 3919] [])
     = Ret (Some "answer 2").
Proof.
  apply (chunking_branch_maps_then_reduces Demo.world
           (Demo.args_of [] None false) [repeat_str "a" 3919] []
           ["answer 0"; "answer 1"]).
  - apply Nat.ltb_lt. vm_compute. reflexivity.
  - vm_compute. reflexivity.
  - simpl. lia.
Defined.

Lemma failed_inputs_skipped_and_abort_iff_none_yields_witness :
  logged_error "missing.txt"
    (input_log Demo.world
       (Demo.args_of ["missing.txt"; "http://example.com/page"] None false)
       "missing.txt")
  /\ aborts_no_content
       (main Demo.world
          (Demo.args_of ["missing.txt"; "http://example.com/page"] None false)
          []).
Proof.
  destruct (failed_inputs_skipped_and_abort_iff_none_yields Demo.world
              (Demo.args_of ["missing.txt"; "http://example.com/page"]
                 None false)) as (_ & Hlog & Habort).
  split.
  - apply Hlog; [left; reflexivity | vm_compute; reflexivity].
  - apply Habort. intros src [<-|[<-|[]]]; vm_compute; reflexivity.
Defined.

Lemma backend_error_is_fatal_witness :
  [Print "Error calling OpenAI API: rate limit"]
  = [Print ("Error calling OpenAI API: " ++ "rate limit")]
  /\ result (main Demo.world_failing_second
               (Demo.args_of ["longer.txt"] None false))
     = SysExit 1
  /\ Forall (fun ev => is_failed_completion ev = false)
       [Print "Processing file: longer.txt";
        Completion (make_prompt "first chunk" None) (Returned (Some "answer 0"))].
Proof.
  apply (backend_error_is_fatal Demo.world_failing_second
           (Demo.args_of ["longer.txt"] None false)
           [Print "Processing file: longer.txt";
            Completion (make_prompt "first chunk" None) (Returned (Some "answer 0"))]
           (make_prompt "second chunk" None)).
  vm_compute. reflexivity.
Defined.

Lemma empty_text_is_treated_as_failure_witness :
  main Demo.world (Demo.args_of ["report.docx"; "empty.docx"] None false) []
  = ([Print "Processing file: report.docx";
      Print "Processing file: empty.docx";
      Print no_content_message], SysExit 1).
Proof.
  destruct (empty_text_is_treated_as_failure Demo.world
              (Demo.args_of ["report.docx"; "empty.docx"] None false))
    as (_ & _ & H).
  rewrite H; [vm_compute; reflexivity|].
  intros src [<-|[<-|[]]]; right; vm_compute; reflexivity.
Defined.

(** * More of the program *)

(** ** Shapes of the runs *)

Lemma bind_ext {A B} (m m' : M A) (f f' : A -> M B) :
  (forall h, m h = m' h) -> (forall a h, f a h = f' a h) ->
  forall h, bind m f h = bind m' f' h.
Proof.
  intros Hm Hf h. unfold bind. rewrite Hm.
  destruct (m' h) as [es [a|c|x]]; try reflexivity. rewrite Hf. reflexivity.
Qed.

Lemma completions_when (b : bool) line es :
  completions ((if b then [Print line] else []) ++ es) = completions es.
Proof. destruct b; reflexivity. Qed.

Lemma bind_process_with_llm_run {B} w content q
  (f : option string -> M B) h :
  bind (process_with_llm w content q) f h
  = match create w h (make_prompt content q) with
    | Returned text =>
        (Completion (make_prompt content q) (Returned text)
           :: fst (f text (h ++ [make_prompt content q])%list),
         snd (f text (h ++ [make_prompt content q])%list))
    | Raised e =>
        ([Completion (make_prompt content q) (Raised e); api_error_line e],
         SysExit 1)
    end.
Proof.
  pose proof (process_with_llm_run w content q h) as R.
  destruct (create w h (make_prompt content q)) as [text|e].
  - rewrite (bind_run _ _ h _ _ R). reflexivity.
  - rewrite (bind_exit _ _ h _ _ R). reflexivity.
Qed.

Lemma map_chunks_shape w args total chunks : forall i acc h,
  (List.length (completions (fst (map_chunks w args total i chunks acc h)))
   <= List.length chunks)%nat
  /\ (forall x, snd (map_chunks w args total i chunks acc h) <> Uncaught x)
  /\ (forall results,
        snd (map_chunks w args total i chunks acc h) = Ret results ->
        List.length results = (List.length acc + List.length chunks)%nat).
Proof.
  induction chunks as [|c rest IH]; intros i acc h; cbn [map_chunks].
  - simpl. repeat split; try lia; try discriminate.
    intros results [= <-]. lia.
  - rewrite bind_when_run, bind_process_with_llm_run.
    destruct (create w h (make_prompt c (query args))) as [text|e];
      cbn [fst snd]; rewrite completions_when.
    + destruct (IH (S i) (acc ++ [text])%list
                  (h ++ [make_prompt c (query args)])%list) as (Hn & Hu & Hr).
      cbn [completions]. simpl List.length. repeat split.
      * lia.
      * exact Hu.
      * intros results E. rewrite (Hr results E), length_app. simpl. lia.
    + simpl. repeat split; try lia; discriminate.
Qed.

Lemma map_chunks_ret_answers w args total chunks : forall i acc h res,
  snd (map_chunks w args total i chunks acc h) = Ret res ->
  exists results,
    answers w h (map (fun c => make_prompt c (query args)) chunks)
    = map Returned results
    /\ res = (acc ++ results)%list.
Proof.
  induction chunks as [|c rest IH]; intros i acc h res H; cbn [map_chunks] in H.
  - simpl in H. injection H as <-. exists []. rewrite app_nil_r. auto.
  - rewrite bind_when_run, bind_process_with_llm_run in H.
    destruct (create w h (make_prompt c (query args))) as [content|e] eqn:Ec;
      cbn [snd] in H; [|discriminate].
    destruct (IH _ _ _ _ H) as (rs & Ea & ->). exists (content :: rs).
    simpl. rewrite Ec, Ea, <- app_assoc. auto.
Qed.

Lemma chunk_and_reduce_count w args corpus h :
  (List.length (completions (fst (chunk_and_reduce w args corpus h)))
   <= List.length (split_text_into_chunks w corpus 2000 200) + 1)%nat.
Proof.
  unfold chunk_and_reduce. rewrite !bind_when_run. cbn [fst snd].
  rewrite !completions_when.
  set (chunks := split_text_into_chunks w corpus 2000 200).
  destruct (map_chunks_shape w args (List.length chunks) chunks 0 [] h)
    as (Hn & Hu & Hr).
  destruct (map_chunks w args (List.length chunks) 0 chunks [] h)
    as [es r] eqn:E. cbn [fst snd] in *.
  destruct r as [results|c|x].
  - rewrite (bind_run _ _ h es results E). cbn [fst snd].
    rewrite completions_app.
    destruct (1 <? List.length results)%nat.
    + rewrite bind_when_run. destruct (all_texts results).
      * rewrite process_with_llm_run. cbn [fst snd].
        rewrite completions_when.
        destruct (create w _ _); cbn [fst snd]; rewrite length_app; simpl;
          lia.
      * cbn [fst raise]. rewrite completions_when, length_app. simpl. lia.
    + destruct results as [|r0 rs]; cbn [fst snd raise ret];
        rewrite app_nil_r; lia.
  - rewrite (bind_exit _ _ h es c E). cbn [fst snd]. lia.
  - exfalso. exact (Hu x eq_refl).
Qed.

Lemma chunk_and_reduce_answered_or_exit w args corpus h :
  (exists results,
      answers w h (map (fun c => make_prompt c (query args))
                     (split_text_into_chunks w corpus 2000 200))
      = map Returned results)
  \/ exists c, snd (chunk_and_reduce w args corpus h) = SysExit c.
Proof.
  set (chunks := split_text_into_chunks w corpus 2000 200).
  destruct (map_chunks_shape w args (List.length chunks) chunks 0 [] h)
    as (_ & Hu & _).
  pose proof (map_chunks_ret_answers w args (List.length chunks) chunks 0 []
                h) as Ha.
  destruct (map_chunks w args (List.length chunks) 0 chunks [] h)
    as [es r] eqn:E. cbn [fst snd] in *.
  destruct r as [res|c|x].
  - left. destruct (Ha res eq_refl) as (results & Er & _).
    exists results. exact Er.
  - right. exists c. unfold chunk_and_reduce. rewrite !bind_when_run.
    cbn [snd]. fold chunks. rewrite (bind_exit _ _ h es c E). reflexivity.
  - exfalso. exact (Hu x eq_refl).
Qed.

Lemma all_texts_None_iff (l : list (option string)) :
  all_texts l = None <-> In None l.
Proof.
  induction l as [|[s|] r IH]; simpl.
  - split; [discriminate | intros []].
  - destruct (all_texts r); split.
    + discriminate.
    + intros [H|H]; [discriminate|]. apply IH in H. discriminate.
    + intros _. right. apply IH. reflexivity.
    + reflexivity.
  - split; auto.
Qed.

Lemma chunk_and_reduce_uncaught w args corpus h x :
  snd (chunk_and_reduce w args corpus h) = Uncaught x
  <-> exists results,
        answers w h (map (fun c => make_prompt c (query args))
                       (split_text_into_chunks w corpus 2000 200))
        = map Returned results
        /\ ((results = [] /\ x = "IndexError")
            \/ ((1 < List.length results)%nat
                /\ In None results /\ x = "TypeError")).
Proof.
  split.
  - intros H.
    destruct (chunk_and_reduce_answered_or_exit w args corpus h)
      as [(results & E)|(c & Hc)]; [|congruence].
    exists results. split; [exact E|].
    pose proof (chunk_and_reduce_run w args corpus h results E) as R.
    destruct (1 <? List.length results)%nat eqn:L.
    + destruct (all_texts results) as [texts|] eqn:T.
      * destruct R as [_ R]. rewrite R in H.
        destruct (create w _ _); discriminate.
      * destruct R as [_ R]. rewrite R in H. injection H as <-.
        right. apply Nat.ltb_lt in L. apply all_texts_None_iff in T. auto.
    + destruct R as [_ R]. rewrite R in H.
      destruct results; [injection H as <-; auto | discriminate].
  - intros (results & E & H).
    pose proof (chunk_and_reduce_run w args corpus h results E) as R.
    destruct H as [[-> ->]|(L & T & ->)].
    + simpl in R. apply R.
    + apply Nat.ltb_lt in L. apply all_texts_None_iff in T.
      rewrite L, T in R. apply R.
Qed.

Lemma chunk_and_reduce_uncaught_count w args corpus h x :
  snd (chunk_and_reduce w args corpus h) = Uncaught x ->
  List.length (completions (fst (chunk_and_reduce w args corpus h)))
  = List.length (split_text_into_chunks w corpus 2000 200).
Proof.
  intros H. pose proof H as H'.
  apply chunk_and_reduce_uncaught in H' as (results & E & C).
  pose proof (chunk_and_reduce_run w args corpus h results E) as R.
  assert (Hl : List.length results
               = List.length (split_text_into_chunks w corpus 2000 200)).
  { apply (f_equal (@List.length (attempt (option string)))) in E.
    rewrite answers_length, !length_map in E. symmetry. exact E. }
  assert (Hm : List.length
                 (combine (map (fun c => make_prompt c (query args))
                             (split_text_into_chunks w corpus 2000 200))
                    (map Returned results))
               = List.length (split_text_into_chunks w corpus 2000 200)).
  { rewrite length_combine, !length_map. lia. }
  destruct C as [[-> ->]|(L & T & ->)].
  - simpl in R. destruct R as [R _]. rewrite R. exact Hm.
  - apply Nat.ltb_lt in L. apply all_texts_None_iff in T.
    rewrite L, T in R. destruct R as [R _]. rewrite R. exact Hm.
Qed.

Lemma process_shape w args all_content h :
  all_content <> [] ->
  (List.length (completions (fst (process w args all_content h)))
   <= request_budget w all_content)%nat.
Proof.
  intros Hne. unfold request_budget, process.
  destruct all_content as [|d ds]; [congruence|].
  destruct (4000 <? String.length (combined_content (d :: ds)))%nat eqn:L.
  - apply chunk_and_reduce_count.
  - rewrite process_with_llm_run.
    destruct (create w h _); simpl; lia.
Qed.

Lemma log_no_completions w args sources :
  completions (flat_map (input_log w args) sources) = [].
Proof.
  pose proof (collect_log_prints w args sources) as H.
  induction H as [|e es He _ IH]; [reflexivity|].
  destruct e; try discriminate. exact IH.
Qed.

Lemma emit_no_completions w args final_result :
  completions (events (emit w args final_result)) = [].
Proof.
  rewrite emit_events_cases.
  destruct (output args) as [path|]; [destruct (truthy path)|];
    [destruct (write_error w path final_result)| |]; reflexivity.
Qed.

Lemma not_failed_no_exists es :
  Forall (fun e => is_failed_completion e = false) es ->
  ~ Exists (fun e => is_failed_completion e = true) es.
Proof.
  intros H X. apply Exists_exists in X as (e & Hin & He).
  rewrite Forall_forall in H. specialize (H e Hin). congruence.
Qed.

Lemma main_exit_cases w args :
  (forall c, result (main w args) = SysExit c -> c = 1%Z)
  /\ ((exists c, result (main w args) = SysExit c)
      <-> contents_of w (inputs args) = []
          \/ Exists (fun e => is_failed_completion e = true)
               (events (main w args))).
Proof.
  unfold result, events. rewrite main_run, pipeline_run.
  pose proof (prints_not_failed _ (collect_log_prints w args (inputs args)))
    as Hlog.
  destruct (contents_of w (inputs args)) as [|d ds].
  - simpl. split; [intros c [= <-]; reflexivity|].
    split; [auto | intros _; eexists; reflexivity].
  - pose proof (fails_fast_process w args (d :: ds) []) as FF.
    destruct (process w args (d :: ds) []) as [es r].
    destruct FF as [[Hnf Hne] | (before & p & e & E & Hb & Hx)];
      cbn [fst snd] in *.
    + destruct r as [fr|c|x]; cbn [fst snd].
      * split; [discriminate|]. split; [intros [c [=]]|].
        intros [[=]|X]. exfalso. revert X. apply not_failed_no_exists.
        repeat (apply Forall_app; split); auto using emit_not_failed.
      * exfalso. exact (Hne c eq_refl).
      * split; [discriminate|]. split; [intros [c [=]]|].
        intros [[=]|X]. exfalso. revert X. apply not_failed_no_exists.
        apply Forall_app; split; assumption.
    + subst r es. cbn [fst snd]. split; [intros c [= <-]; reflexivity|].
      split; [|intros _; eexists; reflexivity].
      intros _. right. apply Exists_app. right. apply Exists_app. right.
      left. reflexivity.
Qed.

Lemma script_run w key args h :
  script w key args h
  = if truthy_opt key then main w args h
    else
      ([Print "Error: OpenAI API key not found. Please set the OPENAI_API_KEY environment variable.";
        Print "Create a .env file in the same directory with: OPENAI_API_KEY=your_key_here"],
       SysExit 1).
Proof.
  unfold script, startup. destruct (truthy_opt key).
  - exact (bind_ret_run tt (fun _ => main w args) h).
  - reflexivity.
Qed.

(** ** How a run can end *)

(** X1. Once the command line is parsed, the script ends by [sys.exit]
    only with status 1, and it does so exactly in three cases: the API key
    is missing or empty, no input yields content, or a completion request
    failed.  With the key missing or empty nothing else happens than the
    two lines that say so: no input is read and no request is sent. *)
Theorem script_exits_with_status_1_in_three_cases :
  forall (w : World) (api_key : option string) (args : Args),
    (forall c, result (script w api_key args) = SysExit c -> c = 1%Z)
    /\ ((exists c, result (script w api_key args) = SysExit c)
        <-> truthy_opt api_key = false
            \/ contents_of w (inputs args) = []
            \/ Exists (fun e => is_failed_completion e = true)
                 (events (script w api_key args)))
    /\ (truthy_opt api_key = false ->
        events (script w api_key args)
        = [Print "Error: OpenAI API key not found. Please set the OPENAI_API_KEY environment variable.";
           Print "Create a .env file in the same directory with: OPENAI_API_KEY=your_key_here"]).
Proof.
  intros w key args. unfold result, events. rewrite script_run.
  destruct (main_exit_cases w args) as [H1 H2].
  destruct (truthy_opt key).
  - split; [exact H1|]. split; [|discriminate].
    rewrite H2. split; [auto | intros [[=]|H]; exact H].
  - cbn [fst snd]. split; [intros c [= <-]; reflexivity|].
    split; [|reflexivity]. split; [auto | intros _; eexists; reflexivity].
Qed.

(** X2. With a splitter and a [print] that do not raise, [main] ends by
    an exception nothing catches in two cases only, both with a corpus
    over the limit.  Either the splitter hands back no chunk, so that
    [results[0]] raises IndexError.  Or every chunk request is answered,
    there are at least two chunks and one of the answers has no content
    ([None]), so that joining the results raises TypeError.  In both
    cases one request per chunk was sent, none for the reduce step, and
    no file was written. *)
Theorem main_raises_only_index_or_type_error :
  forall (w : World) (args : Args) (x : string),
    let docs := contents_of w (inputs args) in
    let chunks := split_text_into_chunks w (combined_content docs) 2000 200 in
    let prompts := map (fun c => make_prompt c (query args)) chunks in
    (result (main w args) = Uncaught x
     <-> docs <> []
         /\ (4000 < String.length (combined_content docs))%nat
         /\ exists results,
              answers w [] prompts = map Returned results
              /\ ((results = [] /\ x = "IndexError")
                  \/ ((1 < List.length results)%nat
                      /\ In None results /\ x = "TypeError")))
    /\ (result (main w args) = Uncaught x ->
        List.length (completions (events (main w args)))
        = List.length chunks
        /\ Forall (fun e => is_write e = false) (events (main w args))).
Proof.
  intros w args x docs chunks prompts. unfold result, events.
  rewrite main_run. pose proof (pipeline_no_write w args []) as Hw.
  rewrite pipeline_run in *. fold docs in Hw |- *.
  destruct docs as [|d ds] eqn:D; cbn [fst snd] in *.
  - split; [|discriminate]. split; [discriminate | intros [H _]; congruence].
  - pose proof (process_branch w args (d :: ds) []) as B.
    pose proof (chunk_and_reduce_uncaught w args (combined_content (d :: ds))
                  [] x) as U.
    pose proof (chunk_and_reduce_uncaught_count w args
                  (combined_content (d :: ds)) [] x) as C.
    fold chunks in U, C. fold prompts in U.
    destruct (String.length (combined_content (d :: ds)) <=? 4000)%nat eqn:L.
    + rewrite process_with_llm_run in B.
      assert (N : forall y, snd (process w args (d :: ds) []) <> Uncaught y).
      { intros y. rewrite B. destruct (create w [] _); discriminate. }
      apply Nat.leb_le in L.
      destruct (process w args (d :: ds) []) as [es [fr|c|y]];
        cbn [fst snd] in *.
      * split; [|discriminate]. split; [discriminate|]. intros (_ & L' & _). lia.
      * split; [|discriminate]. split; [discriminate|]. intros (_ & L' & _). lia.
      * exfalso. exact (N y eq_refl).
    + apply Nat.leb_gt in L. rewrite <- B in U, C.
      destruct (process w args (d :: ds) []) as [es [fr|c|y]];
        cbn [fst snd] in *.
      * split; [|discriminate]. split; [discriminate|].
        intros (_ & _ & H). apply U in H. discriminate H.
      * split; [|discriminate]. split; [discriminate|].
        intros (_ & _ & H). apply U in H. discriminate H.
      * split.
        -- split.
           ++ intros E. injection E as ->.
              repeat split; [discriminate | exact L |].
              apply U. reflexivity.
           ++ intros (_ & _ & H). apply U in H. injection H as ->.
              reflexivity.
        -- intros E. injection E as ->. split; [|exact Hw].
           rewrite completions_app, log_no_completions. apply C.
           reflexivity.
Qed.

(** X3. A run of [main] never sends more requests than its budget: none
    when no input yields content, one for a corpus of at most 4000
    characters, and otherwise one per chunk and one more, whether requests
    fail or not. *)
Theorem requests_within_budget :
  forall (w : World) (args : Args),
    (List.length (completions (events (main w args)))
     <= request_budget w (contents_of w (inputs args)))%nat.
Proof.
  intros w args. unfold events. rewrite main_run, pipeline_run.
  destruct (contents_of w (inputs args)) as [|d ds] eqn:D.
  - cbn [fst]. rewrite completions_app, log_no_completions. simpl. lia.
  - pose proof (process_shape w args (d :: ds) [] ltac:(discriminate))
      as Hn.
    destruct (process w args (d :: ds) []) as [es r]. cbn [fst snd] in *.
    destruct r as [fr|c|x]; cbn [fst];
      rewrite ?completions_app, ?log_no_completions, ?emit_no_completions,
        ?app_nil_r; simpl; exact Hn.
Qed.

(** ** The output *)

(** X4. Whatever the run, [main] writes at most one file: a write, if
    there is one, goes to the output path of the command line, which is
    not empty, its content is the final result of the pipeline, the run
    ends normally, there is no other write, and the write is followed only
    by the confirmation line (the result is not echoed) or, when it
    failed, by the error line and the result. *)
Theorem output_file_written_once_with_final_result :
  forall (w : World) (args : Args) before path content err after,
    events (main w args) = (before ++ Write path content err :: after)%list ->
    output args = Some path
    /\ path <> ""
    /\ err = write_error w path content
    /\ result (pipeline w args) = Ret content
    /\ result (main w args) = Ret tt
    /\ Forall (fun e => is_write e = false) (before ++ after)
    /\ after = match err with
               | None => [Print ("Output written to " ++ path)]
               | Some e =>
                   [Print ("Error writing to output file: " ++ e);
                    Print (str_of_value content)]
               end.
Proof.
  intros w args before path content err after. unfold events, result.
  rewrite main_run. pose proof (pipeline_no_write w args []) as Hp.
  destruct (pipeline w args []) as [es r]. simpl in Hp.
  destruct r as [fr|code|x]; simpl;
    [|intros E; exfalso; exact (none_of_kind is_write _ _ _ _ Hp E eq_refl)..].
  rewrite emit_events_cases.
  assert (Hframe : forall l, Forall (fun ev => is_write ev = false)
                               (es ++ map Print l)%list).
  { intros l. apply Forall_app. split; [assumption|].
    induction l; simpl; constructor; auto. }
  destruct (output args) as [path'|];
    [destruct (truthy path') eqn:T|];
    [|intros E; exfalso;
      exact (none_of_kind is_write _ _ _ _ (Hframe _) E eq_refl)..].
  apply truthy_true_iff in T.
  destruct (write_error w path' fr) as [e'|] eqn:W; intros E;
    (apply split_at_first with (P := is_write) in E;
     [|assumption | repeat constructor | reflexivity]);
    destruct E as (-> & Hy & ->); injection Hy as -> -> ->;
    (repeat split; auto;
     apply Forall_app; split; [assumption | repeat constructor]).
Qed.

Lemma collect_agree w a b sources acc h :
  verbose a = verbose b ->
  collect w a sources acc h = collect w b sources acc h.
Proof.
  intros Hv. rewrite !collect_run. f_equal. apply flat_map_ext.
  intros src. unfold input_log. rewrite Hv. reflexivity.
Qed.

Section Agree.

Variables (w : World) (a b : Args).
Hypothesis Hin : inputs a = inputs b.
Hypothesis Hv : verbose a = verbose b.
Hypothesis Hq : forall c, make_prompt c (query a) = make_prompt c (query b).

Lemma process_with_llm_agree c h :
  process_with_llm w c (query a) h = process_with_llm w c (query b) h.
Proof. rewrite !process_with_llm_run, Hq. reflexivity. Qed.

Lemma map_chunks_agree total chunks : forall i acc h,
  map_chunks w a total i chunks acc h = map_chunks w b total i chunks acc h.
Proof.
  induction chunks as [|c rest IH]; intros i acc h; cbn [map_chunks];
    [reflexivity|].
  rewrite !bind_when_run, !bind_process_with_llm_run, Hv, Hq.
  destruct (create w h (make_prompt c (query b))); [|reflexivity].
  rewrite IH. reflexivity.
Qed.

Lemma process_agree docs h : process w a docs h = process w b docs h.
Proof.
  unfold process. destruct (4000 <? _)%nat; [|apply process_with_llm_agree].
  unfold chunk_and_reduce. rewrite Hv.
  apply bind_ext; [reflexivity|]. intros _ h1.
  apply bind_ext; [reflexivity|]. intros _ h2.
  apply bind_ext; [apply map_chunks_agree|]. intros results h3.
  reflexivity.
Qed.

Lemma pipeline_agree h : pipeline w a h = pipeline w b h.
Proof.
  rewrite !pipeline_run, Hin.
  assert (E : flat_map (input_log w a) (inputs b)
              = flat_map (input_log w b) (inputs b)).
  { apply flat_map_ext. intros src. unfold input_log. rewrite Hv.
    reflexivity. }
  rewrite E. destruct (contents_of w (inputs b)); [reflexivity|].
  rewrite process_agree. reflexivity.
Qed.

Lemma main_agree h :
  (forall fr, events (emit w a fr) = events (emit w b fr)) ->
  main w a h = main w b h.
Proof.
  intros He. rewrite !main_run, pipeline_agree.
  destruct (pipeline w b h) as [es [fr|c|x]]; try reflexivity.
  rewrite He. reflexivity.
Qed.

End Agree.

(** X5. An output path that is the empty string counts as no output
    path: the run is the run without [-o], so nothing is written and the
    result goes to the console between the separator lines. *)
Theorem empty_output_path_means_console :
  forall (w : World) (args : Args) (h : list string),
    main w (with_output args (Some "")) h = main w (with_output args None) h
    /\ Forall (fun e => is_write e = false)
         (fst (main w (with_output args (Some "")) h))
    /\ forall fr, snd (pipeline w args h) = Ret fr ->
         exists before,
           fst (main w (with_output args (Some "")) h)
           = (before ++ map Print (framed_block (str_of_value fr)))%list.
Proof.
  intros w args h.
  assert (E : main w (with_output args (Some "")) h
              = main w (with_output args None) h).
  { apply main_agree; reflexivity. }
  assert (P : pipeline w (with_output args (Some "")) h = pipeline w args h).
  { apply pipeline_agree; reflexivity. }
  split; [exact E|]. rewrite main_run, P.
  pose proof (adds_only_pipeline (fun e => negb (is_write e))
                (fun _ => eq_refl) (fun _ _ => eq_refl) w args h) as Hw.
  apply Forall_negb in Hw.
  destruct (pipeline w args h) as [es [fr|c|x]]; cbn [fst snd] in *.
  - rewrite emit_events_cases. cbn [with_output output truthy String.eqb negb].
    split.
    + apply Forall_app. split; [assumption | repeat constructor].
    + intros fr' [= <-]. exists es. reflexivity.
  - split; [assumption | discriminate].
  - split; [assumption | discriminate].
Qed.

(** X6. A final result is never lost: whenever the pipeline hands back a
    final result, the run of [main] ends normally and the result was
    either written to the output file without error or printed on the
    console (a result without content is printed as [None]). *)
Theorem final_result_is_written_or_printed :
  forall (w : World) (args : Args) (fr : option string),
    result (pipeline w args) = Ret fr ->
    result (main w args) = Ret tt
    /\ ((exists path, output args = Some path
                      /\ In (Write path fr None) (events (main w args)))
        \/ In (Print (str_of_value fr)) (events (main w args))).
Proof.
  intros w args fr. unfold result, events. rewrite main_run.
  destruct (pipeline w args []) as [es r]. cbn [snd]. intros ->.
  cbn [fst snd]. split; [reflexivity|]. rewrite emit_events_cases.
  destruct (output args) as [path|] eqn:O.
  - destruct (truthy path).
    + destruct (write_error w path fr) as [e|].
      * right. apply in_or_app. right. simpl. auto.
      * left. exists path. split; [reflexivity|].
        apply in_or_app. right. simpl. auto.
    + right. apply in_or_app. right. simpl. auto.
  - right. apply in_or_app. right. simpl. auto.
Qed.


(** ** Sizes *)

Lemma length_append (a b : string) :
  String.length (a ++ b) = (String.length a + String.length b)%nat.
Proof. induction a as [|c a IH]; simpl; [reflexivity | rewrite IH; reflexivity]. Qed.

Lemma length_join sep docs :
  String.length (join sep docs)
  = (total_length docs + String.length sep * (List.length docs - 1))%nat.
Proof.
  unfold join. induction docs as [|d ds IH]; [simpl; lia|].
  destruct ds as [|d' ds'].
  - simpl. lia.
  - change (String.concat sep (d :: d' :: ds'))
      with (d ++ sep ++ String.concat sep (d' :: ds')).
    rewrite !length_append, IH. simpl total_length. simpl List.length. lia.
Qed.

Lemma length_combined_content docs :
  String.length (combined_content docs)
  = (82 + total_length docs + 2 * (List.length docs - 1))%nat.
Proof.
  unfold combined_content.
  change (nl ++ nl ++ repeat_str "-" 30 ++ " DOCUMENT SEPARATOR "
          ++ repeat_str "-" 30 ++ join (nl ++ nl) docs)
    with ((nl ++ nl ++ repeat_str "-" 30 ++ " DOCUMENT SEPARATOR "
           ++ repeat_str "-" 30) ++ join (nl ++ nl) docs).
  rewrite length_append, length_join. reflexivity.
Qed.

(** X8. The prompt of a request is a header that depends on the query
    only, followed by the content as it is; the header has 51 characters
    without a query and 11 more than the query otherwise.  So the one
    request of a corpus within the limit has at most 4000 characters more
    than its header. *)
Theorem prompt_is_header_then_content :
  forall (q : option string),
    (exists header,
        String.length header = prompt_overhead q
        /\ forall content, make_prompt content q = header ++ content)
    /\ forall (w : World) (args : Args) (docs : list string) (h : list string),
        query args = q ->
        (String.length (combined_content docs) <= 4000)%nat ->
        Forall (fun request =>
                  (String.length (fst request) <= 4000 + prompt_overhead q)%nat)
          (completions (fst (process w args docs h))).
Proof.
  intros q.
  assert (H : exists header,
             String.length header = prompt_overhead q
             /\ forall content, make_prompt content q = header ++ content).
  { destruct q as [s|]; [destruct (truthy s) eqn:T|].
    - exists (s ++ nl ++ nl ++ "Content:" ++ nl). split.
      + simpl. rewrite T, length_append. reflexivity.
      + intros content. unfold make_prompt. simpl. rewrite T.
        rewrite append_assoc. reflexivity.
    - exists ("Please summarize the following content concisely:" ++ nl ++ nl).
      split; [simpl; rewrite T; reflexivity|].
      intros content. unfold make_prompt. simpl. rewrite T. reflexivity.
    - exists ("Please summarize the following content concisely:" ++ nl ++ nl).
      split; reflexivity. }
  split; [exact H|]. intros w args docs h Hq Hlen.
  destruct H as (header & Hh & Hp).
  rewrite process_branch. apply Nat.leb_le in Hlen. rewrite Hlen.
  apply Nat.leb_le in Hlen. rewrite process_with_llm_run, Hq.
  assert (B : (String.length (make_prompt (combined_content docs) q)
               <= 4000 + prompt_overhead q)%nat).
  { rewrite Hp, length_append, Hh. lia. }
  destruct (create w h _); cbn [fst snd completions];
    (constructor; [exact B | constructor]).
Qed.

(** X9. The corpus has 82 characters more than the extracted texts
    together, and 2 more for every text after the first.  So the texts
    are chunked exactly when their lengths and those blank lines add up to
    more than 3918; a single text is chunked when it is longer than
    3918. *)
Theorem corpus_is_chunked_over_3918 :
  forall (w : World) (args : Args) (docs : list string) (h : list string),
    String.length (combined_content docs)
    = (82 + total_length docs + 2 * (List.length docs - 1))%nat
    /\ process w args docs h
       = if (3918 <? total_length docs + 2 * (List.length docs - 1))%nat
         then chunk_and_reduce w args (combined_content docs) h
         else process_with_llm w (combined_content docs) (query args) h.
Proof.
  intros w args docs h. split; [apply length_combined_content|].
  unfold process. rewrite length_combined_content.
  destruct (Nat.ltb_spec 4000
              (82 + total_length docs + 2 * (List.length docs - 1)));
    destruct (Nat.ltb_spec 3918
                (total_length docs + 2 * (List.length docs - 1)));
    try reflexivity; lia.
Qed.

(** ** The texts of the extractors *)

Lemma pdf_text_from pages : forall acc,
  fold_left (fun text page => text ++ page ++ nl) pages acc
  = acc ++ pdf_text pages.
Proof.
  unfold pdf_text. induction pages as [|p ps IH]; intros acc; simpl.
  - rewrite append_nil_r. reflexivity.
  - rewrite IH, (IH (p ++ nl)), !append_assoc. reflexivity.
Qed.

Lemma pdf_text_cons page pages :
  pdf_text (page :: pages) = page ++ nl ++ pdf_text pages.
Proof.
  unfold pdf_text at 1. simpl. rewrite pdf_text_from, append_assoc.
  reflexivity.
Qed.

Lemma length_zero_empty (s : string) : String.length s = 0%nat <-> s = "".
Proof. destruct s; simpl; split; intros H; congruence. Qed.

(** X10. The text of a PDF is the texts of its pages, each followed by a
    line end: its length is the lengths of the pages plus their number,
    and the text of two runs of pages is the two texts one after the
    other.  It is empty only for a PDF without pages, so a PDF whose pages
    hold no text at all still passes the test [if content:] of [main]. *)
Theorem pdf_text_ends_every_page_with_newline :
  forall (pages more : list string),
    pdf_text (pages ++ more) = pdf_text pages ++ pdf_text more
    /\ String.length (pdf_text pages)
       = (total_length pages + List.length pages)%nat
    /\ (truthy (pdf_text pages) = true <-> pages <> [])
    /\ forall page, pdf_text [page] = page ++ nl.
Proof.
  intros pages more.
  assert (L : forall ps, String.length (pdf_text ps)
                         = (total_length ps + List.length ps)%nat).
  { induction ps as [|p ps IH]; [reflexivity|].
    rewrite pdf_text_cons, !length_append, IH. simpl. lia. }
  split; [|split; [apply L|split]].
  - induction pages as [|p ps IH]; [reflexivity|].
    simpl app. rewrite !pdf_text_cons, IH, !append_assoc. reflexivity.
  - rewrite truthy_true_iff, <- length_zero_empty, L.
    destruct pages; simpl; split; intros H; try congruence; try lia.
  - intros page. rewrite pdf_text_cons. reflexivity.
Qed.

Lemma join_empty_iff sep l :
  sep <> "" -> (join sep l = "" <-> l = [] \/ l = [""]).
Proof.
  intros Hsep. rewrite <- length_zero_empty, length_join.
  destruct l as [|x [|y r]]; simpl.
  - split; auto.
  - rewrite Nat.mul_0_r, !Nat.add_0_r, length_zero_empty.
    split; [intros ->; auto | intros [H|H]; congruence].
  - split; [|intros [H|H]; discriminate]. intros H. exfalso.
    assert (String.length sep <> 0%nat) by (rewrite length_zero_empty; exact Hsep).
    nia.
Qed.

(** X11. The text of a DOCX file is empty, so that [main] drops the file,
    only when the file has no paragraph or a single empty one; the text of
    a CSV file only when it has no row, or a single row that is empty or
    holds one empty field.  Two empty paragraphs or two empty rows already
    make a text of one line end, which counts as content. *)
Theorem docx_and_csv_text_empty_cases :
  (forall paragraphs,
      truthy (docx_text paragraphs) = false
      <-> paragraphs = [] \/ paragraphs = [""])
  /\ (forall rows,
        truthy (csv_text rows) = false
        <-> rows = [] \/ rows = [[]] \/ rows = [[""]])
  /\ docx_text [""; ""] = nl
  /\ csv_text [[]; []] = nl.
Proof.
  assert (T : forall s, truthy s = false <-> s = "").
  { intros s. unfold truthy. destruct (String.eqb_spec s ""); simpl;
      split; intros H; congruence. }
  assert (Hnl : nl <> "") by discriminate.
  assert (Hcomma : ", " <> "") by discriminate.
  split; [|split; [|split; reflexivity]].
  - intros ps. rewrite T. apply join_empty_iff, Hnl.
  - intros rows. rewrite T. unfold csv_text.
    rewrite (join_empty_iff nl _ Hnl). split.
    + intros [H|H].
      * left. destruct rows; [reflexivity | discriminate].
      * destruct rows as [|r [|r' rs]]; try discriminate.
        simpl in H. injection H as H.
        apply (join_empty_iff ", " r Hcomma) in H as [->| ->]; auto.
    + intros [->|[->| ->]]; auto.
Qed.

Lemma or_report_lines a what src h :
  exists lines o,
    or_report a what src h = (map Print lines, Ret o)
    /\ (List.length lines <= 1)%nat
    /\ (lines = [] <-> o <> None).
Proof.
  destruct a as [text|e].
  - exists [], (Some text). repeat split; auto; discriminate.
  - exists ["Error extracting text from " ++ what ++ src ++ ": " ++ e], None.
    repeat split; auto; try discriminate. intros H. congruence.
Qed.

(** X12. The plain-text extractor reads a file that is not valid UTF-8 as
    Latin-1 without a word: when the second read succeeds its text is
    handed back and nothing is printed.  In general the extractor prints
    nothing when it hands back a text and exactly one line when it hands
    back [None], and when both reads fail the line reports the error of
    the Latin-1 read, not the decoding error. *)
Theorem text_file_falls_back_to_latin1_silently :
  forall (w : World) (file_path : string) (h : list string),
    (forall e text,
        read_utf8 w file_path = DecodeError e ->
        read_latin1 w file_path = Returned text ->
        extract_text_from_text_file w file_path h = ([], Ret (Some text)))
    /\ (forall e e',
          read_utf8 w file_path = DecodeError e ->
          read_latin1 w file_path = Raised e' ->
          extract_text_from_text_file w file_path h
          = ([Print ("Error extracting text from file " ++ file_path
                     ++ ": " ++ e')], Ret None))
    /\ exists lines o,
         extract_text_from_text_file w file_path h = (map Print lines, Ret o)
         /\ (lines = [] <-> o <> None)
         /\ (o = None -> List.length lines = 1%nat).
Proof.
  intros w file_path h. unfold extract_text_from_text_file.
  split; [|split].
  - intros e text -> ->. reflexivity.
  - intros e e' -> ->. reflexivity.
  - destruct (read_utf8 w file_path) as [text|e|e].
    + exists [], (Some text). repeat split; auto; discriminate.
    + destruct (read_latin1 w file_path) as [text|e'].
      * exists [], (Some text). repeat split; auto; discriminate.
      * eexists [_], None. repeat split; auto; try discriminate.
        intros H. congruence.
    + eexists [_], None. repeat split; auto; try discriminate.
      intros H. congruence.
Qed.

Lemma text_file_lines w src h :
  exists lines o,
    extract_text_from_text_file w src h = (map Print lines, Ret o)
    /\ (List.length lines <= 1)%nat
    /\ (lines = [] <-> o <> None).
Proof.
  unfold extract_text_from_text_file.
  destruct (read_utf8 w src) as [text|e|e]; try apply or_report_lines.
  exists [], (Some text). repeat split; auto; discriminate.
Qed.

Lemma after_print line (m : M (option string)) h :
  (forall h', exists lines o,
      m h' = (map Print lines, Ret o)
      /\ (List.length lines <= 1)%nat /\ (lines = [] <-> o <> None)) ->
  exists lines o,
    bind (print line) (fun _ => m) h = (map Print (line :: lines), Ret o)
    /\ (List.length lines <= 1)%nat /\ (lines = [] <-> o <> None).
Proof.
  intros H. destruct (H h) as (lines & o & E & Hl & Ho).
  exists lines, o. rewrite bind_print_run, E. auto.
Qed.

(** X13. Routing and extraction never end the run and only print:
    whatever the world, [process_input] hands back a text or [None] after
    printing one to three lines and nothing else.  The first line names
    the input: it announces a URL or a file, or says that the file was not
    found.  When a text is handed back there are at most two lines, the
    second one being the warning for an unknown extension. *)
Theorem process_input_only_prints :
  forall (w : World) (input_source : string) (h : list string),
    exists lines o,
      process_input w input_source h = (map Print lines, Ret o)
      /\ (1 <= List.length lines <= 3)%nat
      /\ (hd "" lines = "Processing URL: " ++ input_source
          \/ hd "" lines = "Processing file: " ++ input_source
          \/ hd "" lines = "Error: File not found: " ++ input_source)
      /\ (o <> None -> (List.length lines <= 2)%nat).
Proof.
  intros w src h. unfold process_input.
  destruct (startswith src "http://" || startswith src "https://").
  { destruct (after_print ("Processing URL: " ++ src)
                (extract_text_from_url w src) h
                (fun h' => or_report_lines _ _ _ h'))
      as (lines & o & E & Hl & Ho).
    exists (("Processing URL: " ++ src) :: lines), o.
    rewrite E. simpl List.length. repeat split; auto; lia. }
  destruct (negb (path_exists w src)).
  { exists ["Error: File not found: " ++ src], None.
    simpl List.length. repeat split; auto; lia. }
  set (ext := lower (snd (splitext w src))).
  assert (K : forall m : M (option string),
             (forall h', exists lines o,
                 m h' = (map Print lines, Ret o)
                 /\ (List.length lines <= 1)%nat
                 /\ (lines = [] <-> o <> None)) ->
             exists lines o,
               bind (print ("Processing file: " ++ src)) (fun _ => m) h
               = (map Print lines, Ret o)
               /\ (1 <= List.length lines <= 3)%nat
               /\ (hd "" lines = "Processing URL: " ++ src
                   \/ hd "" lines = "Processing file: " ++ src
                   \/ hd "" lines = "Error: File not found: " ++ src)
               /\ (o <> None -> (List.length lines <= 2)%nat)).
  { intros m Hm.
    destruct (after_print ("Processing file: " ++ src) m h Hm)
      as (lines & o & E & Hl & Ho).
    exists (("Processing file: " ++ src) :: lines), o.
    rewrite E. simpl List.length. repeat split; auto; lia. }
  destruct (ext =? ".pdf"); [apply K; intros; apply or_report_lines|].
  destruct (ext =? ".docx"); [apply K; intros; apply or_report_lines|].
  destruct (ext =? ".csv"); [apply K; intros; apply or_report_lines|].
  destruct (mem ext [".txt"; ".md"; ".json"; ".html"; ".htm"]);
    [apply K; intros; apply text_file_lines|].
  rewrite bind_print_run.
  destruct (after_print
              ("Warning: Unrecognized file extension for " ++ src
               ++ ". Trying as text file.")
              (extract_text_from_text_file w src) h
              (fun h' => text_file_lines w src h'))
    as (lines & o & E & Hl & Ho).
  rewrite E. cbn [fst snd].
  exists (("Processing file: " ++ src)
            :: ("Warning: Unrecognized file extension for " ++ src
                ++ ". Trying as text file.") :: lines), o.
  simpl List.length. repeat split; auto; try lia.
  intros Hne. apply Ho in Hne. subst lines. simpl. lia.
Qed.

(** ** The clean-up of a fetched page *)

Lemma linebreak_is_space c : is_linebreak c = true -> is_space c = true.
Proof.
  unfold is_linebreak, is_space. set (n := nat_of_ascii c).
  rewrite !orb_true_iff, !andb_true_iff, !Nat.leb_le, !Nat.eqb_eq. lia.
Qed.

Lemma string_length_induction (P : string -> Prop) :
  (forall s, (forall t, (String.length t < String.length s)%nat -> P t) -> P s) ->
  forall s, P s.
Proof.
  intros H s.
  assert (G : forall n t, (String.length t < n)%nat -> P t).
  { induction n as [|n IH]; intros t Ht; [lia|].
    apply H. intros u Hu. apply IH. lia. }
  apply (G (S (String.length s))). lia.
Qed.

Lemma lines_raw_cons c r :
  lines_raw (String c r)
  = if is_linebreak c then "" :: lines_raw (after_linebreak c r)
    else cons_to_first c (lines_raw r).
Proof.
  cbn [lines_raw]. destruct (is_linebreak c); [|reflexivity].
  unfold after_linebreak. destruct r as [|d r']; [reflexivity|].
  destruct (Ascii.eqb c "013" && Ascii.eqb d "010"); reflexivity.
Qed.

Lemma after_linebreak_length c r :
  (String.length (after_linebreak c r) <= String.length r)%nat.
Proof.
  unfold after_linebreak. destruct r as [|d r']; [simpl; lia|].
  destruct (Ascii.eqb c "013" && Ascii.eqb d "010"); simpl; lia.
Qed.

Lemma after_linebreak_ink c r :
  is_linebreak c = true -> ink (after_linebreak c r) = ink r.
Proof.
  intros _. unfold after_linebreak. destruct r as [|d r']; [reflexivity|].
  destruct (Ascii.eqb c "013" && Ascii.eqb d "010") eqn:E; [|reflexivity].
  apply andb_true_iff in E as [_ E]. apply Ascii.eqb_eq in E. subst d.
  reflexivity.
Qed.

Lemma lines_raw_not_nil s : lines_raw s <> [].
Proof.
  destruct s as [|c r]; [discriminate|]. rewrite lines_raw_cons.
  destruct (is_linebreak c); [discriminate|].
  destruct (lines_raw r); discriminate.
Qed.

Lemma inks_cons_to_first c l :
  l <> [] -> inks (cons_to_first c l) = ink (String c "") ++ inks l.
Proof.
  destruct l as [|x r]; [congruence|]. intros _. simpl.
  destruct (is_space c); reflexivity.
Qed.

Lemma inks_lines_raw s : inks (lines_raw s) = ink s.
Proof.
  induction s as [s IH] using string_length_induction.
  destruct s as [|c r]; [reflexivity|]. rewrite lines_raw_cons.
  destruct (is_linebreak c) eqn:B.
  - simpl. rewrite (linebreak_is_space c B).
    rewrite IH by (pose proof (after_linebreak_length c r); simpl; lia).
    apply after_linebreak_ink, B.
  - rewrite inks_cons_to_first by apply lines_raw_not_nil.
    rewrite IH by (simpl; lia). simpl. destruct (is_space c); reflexivity.
Qed.

Lemma Forall_cons_to_first (P : string -> Prop) c l :
  (forall x, P x -> P (String c x)) -> P (String c "") ->
  Forall P l -> Forall P (cons_to_first c l).
Proof.
  intros H1 H0 H. destruct H as [|x r Hx Hr]; simpl; constructor; auto.
Qed.

Lemma lines_raw_no_linebreak s :
  Forall (fun l => no_linebreak l = true) (lines_raw s).
Proof.
  induction s as [s IH] using string_length_induction.
  destruct s as [|c r]; [repeat constructor|]. rewrite lines_raw_cons.
  destruct (is_linebreak c) eqn:B.
  - constructor; [reflexivity|].
    apply IH. pose proof (after_linebreak_length c r). simpl. lia.
  - apply Forall_cons_to_first.
    + intros x Hx. simpl. rewrite B, Hx. reflexivity.
    + simpl. rewrite B. reflexivity.
    + apply IH. simpl. lia.
Qed.

Lemma drop_last_empty_inks l : inks (drop_last_empty l) = inks l.
Proof.
  induction l as [|x r IH]; [reflexivity|].
  destruct r as [|y r'].
  - simpl. destruct (String.eqb_spec x ""); [subst; reflexivity | reflexivity].
  - change (ink x ++ inks (drop_last_empty (y :: r'))
            = ink x ++ inks (y :: r')).
    rewrite IH. reflexivity.
Qed.

Lemma drop_last_empty_Forall (P : string -> Prop) l :
  Forall P l -> Forall P (drop_last_empty l).
Proof.
  induction l as [|x r IH]; intros H; [constructor|].
  inversion H; subst. destruct r as [|y r'].
  - simpl. destruct (x =? ""); [constructor | assumption].
  - change (drop_last_empty (x :: y :: r'))
      with (x :: drop_last_empty (y :: r')).
    constructor; auto.
Qed.

Lemma drop_last_empty_fixed l :
  Forall (fun x => truthy x = true) l -> drop_last_empty l = l.
Proof.
  induction l as [|x r IH]; intros H; [reflexivity|].
  inversion H as [|? ? Hx Hr]; subst. destruct r as [|y r'].
  - simpl. unfold truthy in Hx. destruct (x =? ""); [discriminate|reflexivity].
  - change (drop_last_empty (x :: y :: r'))
      with (x :: drop_last_empty (y :: r')).
    rewrite IH by assumption. reflexivity.
Qed.

Lemma ink_app a b : ink (a ++ b) = ink a ++ ink b.
Proof.
  induction a as [|c a IH]; [reflexivity|]. simpl.
  destruct (is_space c); rewrite IH; reflexivity.
Qed.

Lemma ink_empty_iff s : ink s = "" <-> all_space s = true.
Proof.
  induction s as [|c r IH]; simpl; [split; reflexivity|].
  destruct (is_space c); simpl; [exact IH | split; discriminate].
Qed.

Lemma ink_lstrip s : ink (lstrip s) = ink s.
Proof.
  induction s as [|c r IH]; [reflexivity|]. simpl.
  destruct (is_space c) eqn:E; [exact IH|]. simpl. rewrite E. reflexivity.
Qed.

Lemma lstrip_starts_tidy s : starts_tidy (lstrip s) = true.
Proof.
  induction s as [|c r IH]; [reflexivity|]. simpl.
  destruct (is_space c) eqn:E; [exact IH|]. simpl. rewrite E. reflexivity.
Qed.

Lemma lstrip_fixed s : starts_tidy s = true -> lstrip s = s.
Proof.
  destruct s as [|c r]; [reflexivity|]. simpl.
  destruct (is_space c); [discriminate | reflexivity].
Qed.

Lemma lstrip_no_linebreak s :
  no_linebreak s = true -> no_linebreak (lstrip s) = true.
Proof.
  induction s as [|c r IH]; [auto|]. intros H. simpl.
  destruct (is_space c); [|exact H].
  simpl in H. apply andb_true_iff in H as [_ H]. auto.
Qed.

Lemma no_double_space_tail c r :
  no_double_space (String c r) = true -> no_double_space r = true.
Proof.
  destruct r as [|d r']; [reflexivity|]. cbn [no_double_space].
  intros H. apply andb_true_iff in H as [_ H]. exact H.
Qed.

Lemma lstrip_no_double_space s :
  no_double_space s = true -> no_double_space (lstrip s) = true.
Proof.
  induction s as [|c r IH]; [auto|]. intros H. simpl.
  destruct (is_space c); [|exact H].
  apply IH. exact (no_double_space_tail c r H).
Qed.

Lemma rstrip_cons c r :
  rstrip (String c r)
  = match rstrip r with
    | EmptyString => if is_space c then "" else String c ""
    | String d r' => String c (String d r')
    end.
Proof. reflexivity. Qed.

Lemma rstrip_head s d r' : rstrip s = String d r' -> exists r0, s = String d r0.
Proof.
  destruct s as [|c r]; [discriminate|]. rewrite rstrip_cons.
  destruct (rstrip r); [destruct (is_space c)|]; intros [= <- <-];
    eexists; reflexivity.
Qed.

Lemma ink_rstrip s : ink (rstrip s) = ink s.
Proof.
  induction s as [|c r IH]; [reflexivity|]. rewrite rstrip_cons.
  destruct (rstrip r) as [|d r'] eqn:E.
  - simpl in IH. destruct (is_space c) eqn:S; simpl; rewrite S, <- IH;
      reflexivity.
  - change (ink (String c (String d r')))
      with (if is_space c then ink (String d r')
            else String c (ink (String d r'))).
    rewrite IH. reflexivity.
Qed.

Lemma rstrip_idem s : rstrip (rstrip s) = rstrip s.
Proof.
  induction s as [|c r IH]; [reflexivity|]. rewrite rstrip_cons.
  destruct (rstrip r) as [|d r'] eqn:E.
  - destruct (is_space c) eqn:S; [reflexivity|].
    rewrite rstrip_cons. simpl. rewrite S. reflexivity.
  - rewrite rstrip_cons, IH. reflexivity.
Qed.

Lemma rstrip_starts_tidy s :
  starts_tidy s = true -> starts_tidy (rstrip s) = true.
Proof.
  destruct s as [|c r]; [auto|]. rewrite rstrip_cons. intros H.
  destruct (rstrip r); [|exact H].
  simpl in H. destruct (is_space c) eqn:S; [discriminate|].
  simpl. rewrite S. reflexivity.
Qed.

Lemma rstrip_no_linebreak s :
  no_linebreak s = true -> no_linebreak (rstrip s) = true.
Proof.
  induction s as [|c r IH]; [auto|]. rewrite rstrip_cons. simpl.
  intros H. apply andb_true_iff in H as [Hc Hr]. specialize (IH Hr).
  destruct (rstrip r) as [|d r'].
  - destruct (is_space c); simpl; [reflexivity | rewrite Hc; reflexivity].
  - change (negb (is_linebreak c) && no_linebreak (String d r') = true).
    rewrite Hc, IH. reflexivity.
Qed.

Lemma rstrip_no_double_space s :
  no_double_space s = true -> no_double_space (rstrip s) = true.
Proof.
  induction s as [|c r IH]; [auto|]. rewrite rstrip_cons. intros H.
  pose proof (IH (no_double_space_tail c r H)) as Hr.
  destruct (rstrip r) as [|d r'] eqn:E.
  - destruct (is_space c); reflexivity.
  - destruct (rstrip_head r d r' E) as (r0 & ->).
    cbn [no_double_space] in H. apply andb_true_iff in H as [Hcd _].
    change (negb (Ascii.eqb c " " && Ascii.eqb d " ")
            && no_double_space (String d r') = true).
    rewrite Hcd, Hr. reflexivity.
Qed.

Lemma ink_strip s : ink (strip s) = ink s.
Proof. unfold strip. rewrite ink_rstrip, ink_lstrip. reflexivity. Qed.

Lemma strip_idem s : strip (strip s) = strip s.
Proof.
  unfold strip.
  rewrite (lstrip_fixed (rstrip (lstrip s)))
    by apply rstrip_starts_tidy, lstrip_starts_tidy.
  apply rstrip_idem.
Qed.

Lemma strip_starts_tidy s : starts_tidy (strip s) = true.
Proof. apply rstrip_starts_tidy, lstrip_starts_tidy. Qed.

Lemma strip_no_linebreak s :
  no_linebreak s = true -> no_linebreak (strip s) = true.
Proof. intros H. apply rstrip_no_linebreak, lstrip_no_linebreak, H. Qed.

Lemma strip_no_double_space s :
  no_double_space s = true -> no_double_space (strip s) = true.
Proof. intros H. apply rstrip_no_double_space, lstrip_no_double_space, H. Qed.

Lemma split_double_space_two c d r :
  split_double_space (String c (String d r))
  = if Ascii.eqb c " " && Ascii.eqb d " "
    then "" :: split_double_space r
    else cons_to_first c (split_double_space (String d r)).
Proof. reflexivity. Qed.

Lemma split_double_space_not_nil s : split_double_space s <> [].
Proof.
  destruct s as [|c [|d r']]; try discriminate. rewrite split_double_space_two.
  destruct (Ascii.eqb c " " && Ascii.eqb d " "); [discriminate|].
  destruct (split_double_space (String d r')); discriminate.
Qed.

Lemma split_double_space_head s :
  exists x rest,
    split_double_space s = x :: rest
    /\ (x = "" \/ exists c s' x', s = String c s' /\ x = String c x').
Proof.
  destruct s as [|c [|d r']].
  - exists "", []. auto.
  - exists (String c ""), []. split; [reflexivity|]. right.
    exists c, "", "". auto.
  - rewrite split_double_space_two.
    destruct (Ascii.eqb c " " && Ascii.eqb d " ").
    + eexists "", _. auto.
    + destruct (split_double_space (String d r')) as [|y rest] eqn:E;
        [exfalso; exact (split_double_space_not_nil _ E)|].
      exists (String c y), rest. split; [reflexivity|]. right.
      exists c, (String d r'), y. auto.
Qed.

Lemma inks_split_double_space s : inks (split_double_space s) = ink s.
Proof.
  induction s as [s IH] using string_length_induction.
  destruct s as [|c [|d r']]; [reflexivity| |].
  - simpl. destruct (is_space c); reflexivity.
  - rewrite split_double_space_two.
    destruct (Ascii.eqb c " " && Ascii.eqb d " ") eqn:E.
    + apply andb_true_iff in E as [Ec Ed].
      apply Ascii.eqb_eq in Ec, Ed. subst c d.
      simpl inks. rewrite IH by (simpl; lia). reflexivity.
    + rewrite inks_cons_to_first by apply split_double_space_not_nil.
      rewrite IH by (simpl; lia). simpl. destruct (is_space c); reflexivity.
Qed.

Lemma split_double_space_no_linebreak s :
  no_linebreak s = true ->
  Forall (fun x => no_linebreak x = true) (split_double_space s).
Proof.
  induction s as [s IH] using string_length_induction.
  destruct s as [|c [|d r']]; intros H; [repeat constructor | |].
  - repeat constructor. exact H.
  - rewrite split_double_space_two.
    assert (H' := H). cbn [no_linebreak] in H'.
    apply andb_true_iff in H' as [Hc H'].
    destruct (Ascii.eqb c " " && Ascii.eqb d " ").
    + constructor; [reflexivity|]. apply IH; [simpl; lia|].
      apply andb_true_iff in H' as [_ H']. exact H'.
    + apply Forall_cons_to_first.
      * intros x Hx. cbn [no_linebreak]. rewrite Hc, Hx. reflexivity.
      * cbn [no_linebreak]. rewrite Hc. reflexivity.
      * apply IH; [simpl; lia | exact H'].
Qed.

Lemma split_double_space_pieces s :
  Forall (fun x => no_double_space x = true) (split_double_space s).
Proof.
  induction s as [s IH] using string_length_induction.
  destruct s as [|c [|d r']]; [repeat constructor..|].
  rewrite split_double_space_two.
  destruct (Ascii.eqb c " " && Ascii.eqb d " ") eqn:E.
  - constructor; [reflexivity|]. apply IH. simpl. lia.
  - pose proof (IH (String d r') ltac:(simpl; lia)) as Hr.
    destruct (split_double_space_head (String d r'))
      as (y & rest & Ey & Hy).
    rewrite Ey in Hr |- *. inversion Hr as [|? ? Hy' Hrest]; subst.
    simpl. constructor; [|exact Hrest].
    destruct Hy as [->|(c' & s' & y' & Es & ->)]; [reflexivity|].
    injection Es as <- <-.
    change (negb (Ascii.eqb c " " && Ascii.eqb d " ")
            && no_double_space (String d y') = true).
    rewrite E, Hy'. reflexivity.
Qed.

Lemma split_double_space_fixed s :
  no_double_space s = true -> split_double_space s = [s].
Proof.
  induction s as [|c r IH]; [reflexivity|]. intros H.
  destruct r as [|d r']; [reflexivity|].
  rewrite split_double_space_two. assert (H' := H). cbn [no_double_space] in H'.
  apply andb_true_iff in H' as [Hcd Hr]. apply negb_true_iff in Hcd.
  rewrite Hcd, (IH Hr). reflexivity.
Qed.

Lemma ink_join_nl l : ink (join nl l) = inks l.
Proof.
  unfold join. induction l as [|x r IH]; [reflexivity|].
  destruct r as [|y r'].
  - simpl. rewrite append_nil_r. reflexivity.
  - change (String.concat nl (x :: y :: r'))
      with (x ++ nl ++ String.concat nl (y :: r')).
    rewrite !ink_app, IH. reflexivity.
Qed.

Lemma lines_raw_app p s :
  no_linebreak p = true ->
  lines_raw (p ++ s) = (p ++ hd "" (lines_raw s)) :: tl (lines_raw s).
Proof.
  induction p as [|c p IH]; intros H.
  - simpl. pose proof (lines_raw_not_nil s).
    destruct (lines_raw s); [congruence | reflexivity].
  - simpl in H. apply andb_true_iff in H as [Hc Hp].
    apply negb_true_iff in Hc.
    change (String c p ++ s) with (String c (p ++ s)).
    rewrite lines_raw_cons, Hc, (IH Hp). reflexivity.
Qed.

Lemma lines_raw_join ps :
  ps <> [] ->
  Forall (fun p => no_linebreak p = true) ps ->
  lines_raw (join nl ps) = ps.
Proof.
  unfold join. induction ps as [|p r IH]; [congruence|]. intros _ H.
  inversion H as [|? ? Hp Hr]; subst. destruct r as [|q r'].
  - simpl. rewrite <- (append_nil_r p) at 1.
    rewrite (lines_raw_app p "" Hp). simpl. rewrite append_nil_r.
    reflexivity.
  - change (String.concat nl (p :: q :: r'))
      with (p ++ nl ++ String.concat nl (q :: r')).
    rewrite (lines_raw_app p _ Hp).
    change (nl ++ String.concat nl (q :: r'))
      with (String "010" (String.concat nl (q :: r'))).
    rewrite lines_raw_cons.
    change (is_linebreak "010") with true. cbv iota.
    assert (A : forall t, after_linebreak "010" t = t).
    { intros [|d t]; reflexivity. }
    rewrite A, IH by (try discriminate; assumption).
    simpl hd. simpl tl. rewrite append_nil_r. reflexivity.
Qed.

Lemma tidy_line_parts s :
  tidy_line s = true
  <-> truthy s = true /\ strip s = s /\ no_linebreak s = true
      /\ no_double_space s = true.
Proof.
  unfold tidy_line. rewrite !andb_true_iff, String.eqb_eq. tauto.
Qed.

Lemma splitlines_join ps :
  Forall (fun p => tidy_line p = true) ps -> splitlines (join nl ps) = ps.
Proof.
  intros H. destruct ps as [|p r]; [reflexivity|]. unfold splitlines.
  rewrite lines_raw_join.
  - apply drop_last_empty_fixed. revert H. apply Forall_impl.
    intros x Hx. apply tidy_line_parts in Hx. tauto.
  - discriminate.
  - revert H. apply Forall_impl.
    intros x Hx. apply tidy_line_parts in Hx. tauto.
Qed.

Lemma inks_app a b : inks (a ++ b) = inks a ++ inks b.
Proof.
  induction a as [|x a IH]; [reflexivity|]. simpl.
  rewrite IH, append_assoc. reflexivity.
Qed.

Lemma inks_map_strip l : inks (map strip l) = inks l.
Proof.
  induction l as [|x l IH]; [reflexivity|]. simpl.
  rewrite ink_strip, IH. reflexivity.
Qed.

Lemma inks_filter_truthy l : inks (filter truthy l) = inks l.
Proof.
  induction l as [|x l IH]; [reflexivity|]. simpl.
  unfold truthy at 1. destruct (String.eqb_spec x ""); simpl.
  - subst x. exact IH.
  - rewrite IH. reflexivity.
Qed.

Lemma inks_chunks lines :
  inks (flat_map (fun line => map strip (split_double_space line)) lines)
  = inks lines.
Proof.
  induction lines as [|x l IH]; [reflexivity|]. simpl.
  rewrite inks_app, inks_map_strip, inks_split_double_space, IH.
  reflexivity.
Qed.

Lemma clean_text_chunks_tidy text :
  Forall (fun c => tidy_line c = true)
    (filter truthy
       (flat_map (fun line => map strip (split_double_space line))
          (map strip (splitlines text)))).
Proof.
  assert (H : Forall (fun c => strip c = c /\ no_linebreak c = true
                               /\ no_double_space c = true)
                (flat_map (fun line => map strip (split_double_space line))
                   (map strip (splitlines text)))).
  { apply Forall_flat_map. apply Forall_map.
    unfold splitlines. apply drop_last_empty_Forall.
    pose proof (lines_raw_no_linebreak text) as L. revert L.
    apply Forall_impl. intros l Hl. apply Forall_map.
    pose proof (split_double_space_no_linebreak (strip l)
                  (strip_no_linebreak l Hl)) as A.
    pose proof (split_double_space_pieces (strip l)) as B.
    rewrite Forall_forall in *. intros x Hx.
    split; [apply strip_idem|].
    split; [apply strip_no_linebreak, A, Hx
           | apply strip_no_double_space, B, Hx]. }
  rewrite Forall_forall in *. intros c Hc.
  apply filter_In in Hc as [Hin Ht]. destruct (H c Hin) as (S & L & D).
  apply tidy_line_parts. auto.
Qed.

Lemma clean_text_fixed ps :
  Forall (fun p => tidy_line p = true) ps ->
  clean_text (join nl ps) = join nl ps.
Proof.
  intros H. unfold clean_text. rewrite (splitlines_join ps H).
  assert (E1 : map strip ps = ps).
  { induction H as [|p r Hp _ IH]; [reflexivity|]. simpl.
    apply tidy_line_parts in Hp as (_ & S & _). rewrite S, IH. reflexivity. }
  rewrite E1. clear E1.
  assert (E2 : flat_map (fun line => map strip (split_double_space line)) ps
               = ps).
  { induction H as [|p r Hp _ IH]; [reflexivity|]. simpl.
    apply tidy_line_parts in Hp as (_ & S & _ & D).
    rewrite (split_double_space_fixed p D). simpl. rewrite S, IH.
    reflexivity. }
  rewrite E2. clear E2.
  assert (E3 : filter truthy ps = ps).
  { induction H as [|p r Hp _ IH]; [reflexivity|]. simpl.
    apply tidy_line_parts in Hp as (T & _). rewrite T, IH. reflexivity. }
  rewrite E3. reflexivity.
Qed.

(** X14. The clean-up of a fetched page leaves tidy lines only: the
    clean text is a list of lines joined by line feeds, and every line is
    not empty, has no white space at either end, and holds no line
    boundary and no two spaces in a row.  Splitting the clean text into
    lines gives these lines back. *)
Theorem clean_text_has_tidy_lines_only :
  forall (text : string),
    exists lines,
      clean_text text = join nl lines
      /\ Forall (fun line => tidy_line line = true) lines
      /\ splitlines (clean_text text) = lines.
Proof.
  intros text.
  exists (filter truthy
            (flat_map (fun line => map strip (split_double_space line))
               (map strip (splitlines text)))).
  pose proof (clean_text_chunks_tidy text) as H.
  split; [reflexivity|]. split; [exact H|].
  unfold clean_text. apply splitlines_join, H.
Qed.

(** X15. Cleaning a text that is already clean changes nothing: the
    clean-up is idempotent. *)
Theorem clean_text_is_idempotent :
  forall (text : string), clean_text (clean_text text) = clean_text text.
Proof.
  intros text. unfold clean_text at 2.
  apply clean_text_fixed, clean_text_chunks_tidy.
Qed.

(** X16. The clean-up only touches white space: the characters of the
    page that are not white space are all kept, in their order, and none
    is added.  So the clean text is empty exactly when the page holds
    nothing but white space, and such a page is dropped by [main]. *)
Theorem clean_text_keeps_all_ink :
  forall (text : string),
    ink (clean_text text) = ink text
    /\ (clean_text text = "" <-> all_space text = true)
    /\ (truthy (clean_text text) = false <-> all_space text = true).
Proof.
  intros text.
  assert (I : ink (clean_text text) = ink text).
  { unfold clean_text.
    rewrite ink_join_nl, inks_filter_truthy, inks_chunks, inks_map_strip.
    unfold splitlines. rewrite drop_last_empty_inks. apply inks_lines_raw. }
  assert (E : clean_text text = "" <-> all_space text = true).
  { rewrite <- ink_empty_iff, <- I. split; [intros ->; reflexivity|].
    intros H. pose proof (clean_text_chunks_tidy text) as T.
    unfold clean_text in *.
    destruct (filter truthy _) as [|p r]; [reflexivity|]. exfalso.
    inversion T as [|? ? Hp _]; subst.
    apply tidy_line_parts in Hp as (Ht & Hs & _).
    pose proof (strip_starts_tidy p) as St. rewrite Hs in St.
    rewrite ink_join_nl in H. simpl in H.
    destruct p as [|c p']; [discriminate|]. simpl in St, H.
    destruct (is_space c); discriminate. }
  split; [exact I|]. split; [exact E|].
  rewrite <- E. unfold truthy.
  destruct (String.eqb_spec (clean_text text) ""); simpl; split; intros H;
    congruence.
Qed.

(** ** The progress lines of the chunk loop *)

Lemma console_app a b : console (a ++ b) = (console a ++ console b)%list.
Proof.
  induction a as [|e a IH]; [reflexivity|].
  destruct e; simpl; rewrite IH; reflexivity.
Qed.

Lemma map_chunks_events w args total chunks : forall i acc h results,
  answers w h (map (fun c => make_prompt c (query args)) chunks)
  = map Returned results ->
  map_chunks w args total i chunks acc h
  = (chunk_turns args total (i + 1) chunks results,
     Ret (acc ++ results)%list).
Proof.
  induction chunks as [|c rest IH]; intros i acc h results E.
  - destruct results; [|discriminate]. simpl. rewrite app_nil_r.
    reflexivity.
  - destruct results as [|r rs]; [discriminate|]. simpl in E.
    injection E as Ec Er. cbn [map_chunks chunk_turns].
    rewrite bind_when_run, bind_process_with_llm_run, Ec.
    rewrite (IH (S i) (acc ++ [r])%list _ rs Er). cbn [fst snd].
    unfold chunk_turn. rewrite <- !app_assoc.
    replace (S i + 1)%nat with (S (i + 1)) by lia. reflexivity.
Qed.

Lemma chunk_turns_console args total chunks : forall k results,
  List.length results = List.length chunks ->
  console (chunk_turns args total k chunks results)
  = if verbose args
    then map (chunk_line total) (seq k (List.length chunks))
    else [].
Proof.
  induction chunks as [|c rest IH]; intros k results H.
  - simpl. destruct (verbose args); reflexivity.
  - destruct results as [|r rs]; [discriminate|].
    cbn [chunk_turns]. unfold chunk_turn.
    rewrite !console_app, (IH (S k) rs) by (simpl in H; lia).
    destruct (verbose args); reflexivity.
Qed.

(** X17. The loop over the chunks of [main] takes the chunks in order
    and, with the verbose flag, announces every chunk right before its
    request, counting from 1 to the number of chunks: when the backend
    answers every request, the events of the loop are, chunk after chunk,
    the line "Processing chunk k/n" and then the request of chunk k, and
    nothing else, so that the printed lines are "Processing chunk 1/n" to
    "Processing chunk n/n".  Without the flag the events are the requests
    alone.  The loop hands on the answers in the order of the chunks. *)
Theorem chunk_loop_counts_from_1_to_n :
  forall (w : World) (args : Args) (chunks : list string)
         (h : list string) (results : list (option string)),
    answers w h (map (fun c => make_prompt c (query args)) chunks)
    = map Returned results ->
    map_chunks w args (List.length chunks) 0 chunks [] h
    = (chunk_turns args (List.length chunks) 1 chunks results, Ret results)
    /\ console (fst (map_chunks w args (List.length chunks) 0 chunks [] h))
       = if verbose args
         then map (chunk_line (List.length chunks))
                (seq 1 (List.length chunks))
         else [].
Proof.
  intros w args chunks h results E.
  rewrite (map_chunks_events w args _ chunks 0 [] h results E).
  split; [reflexivity|]. cbn [fst]. apply chunk_turns_console.
  apply (f_equal (@List.length (attempt (option string)))) in E.
  rewrite answers_length, !length_map in E. symmetry. exact E.
Qed.

(** ** The properties on concrete runs *)

Lemma output_file_written_once_with_final_result_witness :
  output (Demo.args_of ["notes.txt"] (Some "out.txt") false) = Some "out.txt"
  /\ "out.txt" <> ""
  /\ None = write_error world_writable "out.txt" (Some "answer 0")
  /\ result (pipeline world_writable
               (Demo.args_of ["notes.txt"] (Some "out.txt") false))
     = Ret (Some "answer 0")
  /\ result (main world_writable
               (Demo.args_of ["notes.txt"] (Some "out.txt") false))
     = Ret tt
  /\ Forall (fun e => is_write e = false)
       ([Print "Processing file: notes.txt";
         Completion
           (make_prompt (combined_content ["text of notes.txt"]) None)
           (Returned (Some "answer 0"))]
        ++ [Print "Output written to out.txt"])
  /\ [Print "Output written to out.txt"]
     = [Print ("Output written to " ++ "out.txt")].
Proof.
  apply (output_file_written_once_with_final_result world_writable
           (Demo.args_of ["notes.txt"] (Some "out.txt") false)
           [Print "Processing file: notes.txt";
            Completion
              (make_prompt (combined_content ["text of notes.txt"]) None)
              (Returned (Some "answer 0"))]
           "out.txt" (Some "answer 0") None
           [Print "Output written to out.txt"]).
  vm_compute. reflexivity.
Defined.

Lemma final_result_is_written_or_printed_witness :
  result (main world_writable
            (Demo.args_of ["notes.txt"] (Some "out.txt") false))
  = Ret tt
  /\ ((exists path,
          output (Demo.args_of ["notes.txt"] (Some "out.txt") false)
          = Some path
          /\ In (Write path (Some "answer 0") None)
               (events (main world_writable
                          (Demo.args_of ["notes.txt"] (Some "out.txt")
                             false))))
      \/ In (Print (str_of_value (Some "answer 0")))
           (events (main world_writable
                      (Demo.args_of ["notes.txt"] (Some "out.txt") false)))).
Proof.
  apply (final_result_is_written_or_printed world_writable
           (Demo.args_of ["notes.txt"] (Some "out.txt") false)
           (Some "answer 0")).
  vm_compute. reflexivity.
Defined.

Example run_with_an_answer_without_content :
  main world_answer_without_content
    (Demo.args_of ["longer.txt"] (Some "out.txt") false) []
  = ([Print "Processing file: longer.txt";
      Completion (make_prompt "first chunk" None) (Returned (Some "answer 0"));
      Completion (make_prompt "second chunk" None) (Returned None)],
     Uncaught "TypeError").
Proof. vm_compute. reflexivity. Qed.

Example run_with_a_final_result_without_content :
  main (with_writer
          (Demo.with_backend Demo.world (fun _ _ => Returned None))
          (fun _ _ => None)
          (fun _ => "write() argument must be str, not None"))
    (Demo.args_of ["notes.txt"] (Some "out.txt") false) []
  = ([Print "Processing file: notes.txt";
      Completion (make_prompt (combined_content ["text of notes.txt"]) None)
        (Returned None);
      Write "out.txt" None (Some "write() argument must be str, not None");
      Print "Error writing to output file: write() argument must be str, not None";
      Print "None"],
     Ret tt).
Proof. vm_compute. reflexivity. Qed.

Lemma main_raises_only_index_or_type_error_witness :
  result (main world_answer_without_content
            (Demo.args_of ["longer.txt"] None false))
  = Uncaught "TypeError".
Proof.
  apply (proj2 (proj1 (main_raises_only_index_or_type_error
                         world_answer_without_content
                         (Demo.args_of ["longer.txt"] None false)
                         "TypeError"))).
  split; [vm_compute; discriminate|].
  split; [apply Nat.ltb_lt; vm_compute; reflexivity|].
  exists [Some "answer 0"; None].
  split; [vm_compute; reflexivity|].
  right. repeat split; [simpl; lia | simpl; auto].
Defined.

Lemma prompt_is_header_then_content_witness :
  Forall (fun request =>
            (String.length (fst request) <= 4000 + prompt_overhead None)%nat)
    (completions
       (fst (process Demo.world (Demo.args_of [] None false)
               [repeat_str "a" 3918] []))).
Proof.
  apply (proj2 (prompt_is_header_then_content None) Demo.world
           (Demo.args_of [] None false) [repeat_str "a" 3918] []).
  - reflexivity.
  - apply Nat.leb_le. vm_compute. reflexivity.
Defined.

Lemma text_file_falls_back_to_latin1_silently_witness :
  extract_text_from_text_file Demo.world "latin.txt" []
  = ([], Ret (Some "latin text")).
Proof.
  apply (proj1 (text_file_falls_back_to_latin1_silently Demo.world
                  "latin.txt" []) "invalid start byte" "latin text");
    reflexivity.
Defined.

Lemma chunk_loop_counts_from_1_to_n_witness :
  map_chunks Demo.world (Demo.args_of [] None true) 2 0
    ["first chunk"; "second chunk"] [] []
  = ([Print "Processing chunk 1/2";
      Completion (make_prompt "first chunk" None) (Returned (Some "answer 0"));
      Print "Processing chunk 2/2";
      Completion (make_prompt "second chunk" None)
        (Returned (Some "answer 1"))],
     Ret [Some "answer 0"; Some "answer 1"])
  /\ console
       (fst (map_chunks Demo.world (Demo.args_of [] None true) 2 0
               ["first chunk"; "second chunk"] [] []))
     = ["Processing chunk 1/2"; "Processing chunk 2/2"].
Proof.
  apply (chunk_loop_counts_from_1_to_n Demo.world
           (Demo.args_of [] None true) ["first chunk"; "second chunk"] []
           [Some "answer 0"; Some "answer 1"]).
  vm_compute. reflexivity.
Defined.

Lemma script_exits_with_status_1_in_three_cases_witness :
  events (script Demo.world None (Demo.args_of ["notes.txt"] None false))
  = [Print "Error: OpenAI API key not found. Please set the OPENAI_API_KEY environment variable.";
     Print "Create a .env file in the same directory with: OPENAI_API_KEY=your_key_here"].
Proof.
  apply (proj2 (proj2 (script_exits_with_status_1_in_three_cases Demo.world
                         None (Demo.args_of ["notes.txt"] None false)))).
  reflexivity.
Defined.
